(** * Tie Drop leaderboard server: ranking, placement detection and chat replay

    A shallow embedding of the three interchangeable servers of the
    repository,

      - [server.js]           (SQLite, module [Sqlite]),
      - [server_mongo.js]     (MongoDB, module [Mongo]),
      - [server_supabase.js]  (Supabase, module [Supabase]),

    covering the login callback of the Twitter strategy, the routes
    [GET /auth/logout], [GET /api/leaderboard] and [POST /api/score], and
    the socket.io [connection] and ['chat message'] handlers.

    The storage engines are external: what a query returns for rows that
    compare equal under [ORDER BY] / [$sort] / [.order] is not fixed by the
    source.  The embedding therefore takes the engine's sorting as a
    parameter ([Engine]) of which only "the result is a permutation of the
    input, in descending key order" is known.  In the same way the text a
    template literal prints for a number is a parameter ([NumberText]),
    known to be the decimal digits for the integers a JavaScript number
    holds exactly.  Which storage calls fail is an input of every
    handler. *)

From Stdlib Require Import ZArith String List Permutation Sorted.
From stdpp Require Import base decidable option list sorting gmap strings
  numbers pretty.

Set Warnings "-clear-no-such-hyp".

Local Open Scope string_scope.
Local Open Scope list_scope.
Local Open Scope Z_scope.

(* ===================================================================== *)
(** * Data model *)
(* ===================================================================== *)

(** A row of the [users] table / collection, without its key.  The key is
    [twitterId] ([twitter_id] in Supabase): [PRIMARY KEY] in SQLite, the
    upsert filter in MongoDB, [onConflict] in Supabase.  The table is
    therefore a finite map from [twitterId] to the remaining columns. *)
Record Profile := {
  username : string;
  displayName : string;
  photoUrl : string;
  profileUrl : string
}.

(** The object passport keeps in the session ([req.user]): the [user] built
    by the login callback. *)
Record SessionUser := {
  twitterId : string;
  session_profile : Profile
}.

(** A row of [scores]: [(twitterId, score)]; the [id] and [timestamp]
    columns are never read by the routes. *)
Record ScoreRow := {
  row_twitterId : string;
  row_score : Z
}.

(** A row of [messages].  [msg_id] is the [AUTOINCREMENT] key ([_id] in
    MongoDB, the [created_at] order in Supabase). *)
Record MessageRow := {
  msg_id : Z;
  msg_user : string;
  msg_text : string
}.

(** The payload of a ['chat message'] socket event. *)
Record ChatMessage := {
  user : string;
  text : string
}.

Record Store := {
  users : gmap string Profile;
  scores : list ScoreRow;
  messages : list MessageRow
}.

Global Instance Profile_eq_dec : EqDecision Profile.
Proof. solve_decision. Defined.
Global Instance SessionUser_eq_dec : EqDecision SessionUser.
Proof. solve_decision. Defined.
Global Instance ScoreRow_eq_dec : EqDecision ScoreRow.
Proof. solve_decision. Defined.
Global Instance MessageRow_eq_dec : EqDecision MessageRow.
Proof. solve_decision. Defined.
Global Instance ChatMessage_eq_dec : EqDecision ChatMessage.
Proof. solve_decision. Defined.

(** [INSERT OR REPLACE INTO users] / [updateOne ... upsert] / [upsert]. *)
Definition upsert_user (u : SessionUser) (st : Store) : Store :=
  {| users := <[twitterId u := session_profile u]> (users st);
     scores := scores st;
     messages := messages st |}.

(** [INSERT INTO scores (twitterId, score)]. *)
Definition insert_score (tid : string) (score : Z) (st : Store) : Store :=
  {| users := users st;
     scores := scores st ++ [{| row_twitterId := tid; row_score := score |}];
     messages := messages st |}.

(** The next [AUTOINCREMENT] key: one more than the largest key in use. *)
Definition next_id (ms : list MessageRow) : Z :=
  1 + foldr (λ m acc, Z.max (msg_id m) acc) 0 ms.

(** [INSERT INTO messages (user, text)]. *)
Definition insert_message (m : ChatMessage) (st : Store) : Store :=
  {| users := users st;
     scores := scores st;
     messages := messages st ++
       [{| msg_id := next_id (messages st);
           msg_user := user m; msg_text := text m |}] |}.

(** The profile passport-twitter hands to the verify callback of the
    strategy: [profile.id], [profile.username], [profile.displayName] and
    the [value]s of [profile.photos]. *)
Record TwitterProfile := {
  profile_id : string;
  profile_username : string;
  profile_displayName : string;
  photos : list string
}.

(** The [user] object the verify callback builds.  [None] is the
    [TypeError] of [profile.photos[0].value] when there is no photo. *)
Definition user_of (profile : TwitterProfile) : option SessionUser :=
  match photos profile with
  | [] => None
  | photo :: _ =>
    Some {| twitterId := profile_id profile;
            session_profile :=
              {| username := profile_username profile;
                 displayName := profile_displayName profile;
                 photoUrl := photo;
                 profileUrl := "https://twitter.com/" +:+ profile_username profile |} |}
  end.

(* ===================================================================== *)
(** * The storage engine's ordering *)
(* ===================================================================== *)

(** Descending order on a key. *)
Definition desc {A} (key : A → Z) : relation A := λ a b, key b ≤ key a.

(** What the source relies on from [ORDER BY k DESC], [$sort: {k: -1}] and
    [.order(k, {ascending: false})]: the rows come back rearranged, largest
    key first.  The order among equal keys is the engine's choice. *)
Class Engine := {
  order_desc : ∀ {A : Type}, (A → Z) → list A → list A;
  order_desc_perm : ∀ (A : Type) (key : A → Z) (l : list A),
    order_desc key l ≡ₚ l;
  order_desc_sorted : ∀ (A : Type) (key : A → Z) (l : list A),
    StronglySorted (desc key) (order_desc key l)
}.

Global Instance desc_dec {A} (key : A → Z) : RelDecision (desc key).
Proof. intros a b. unfold desc. apply _. Defined.
Global Instance desc_trans {A} (key : A → Z) : Transitive (desc key).
Proof. intros a b c. unfold desc. lia. Qed.
Global Instance desc_total {A} (key : A → Z) : Total (desc key).
Proof. intros a b. unfold desc. lia. Qed.
Global Instance desc_refl {A} (key : A → Z) : Reflexive (desc key).
Proof. intros a. unfold desc. lia. Qed.

(** One engine: stdpp's stable merge sort. *)
Definition merge_engine : Engine :=
  {| order_desc A key l := merge_sort (desc key) l;
     order_desc_perm A key l := merge_sort_Permutation (desc key) l;
     order_desc_sorted A key l :=
       StronglySorted_merge_sort (desc key) l |}.

(* ===================================================================== *)
(** * Aggregation: [GROUP BY key] with [MAX(value)] *)
(* ===================================================================== *)

(** One step of the aggregation: the group of [k] keeps the payload it was
    created with and the larger of its value and [v]. *)
Definition group_step {P} (k : string) (p : P) (v : Z)
    (groups : gmap string (P * Z)) : gmap string (P * Z) :=
  match groups !! k with
  | Some (p0, v0) => <[k := (p0, Z.max v0 v)]> groups
  | None => <[k := (p, v)]> groups
  end.

(** [GROUP BY] / [$group] over rows [(key, payload, value)], one group per
    key carrying [MAX(value)]. *)
Definition group_max {P} (rows : list (string * P * Z)) : gmap string (P * Z) :=
  foldl (λ groups '(k, p, v), group_step k p v groups) ∅ rows.

(** A grouped row joined with its user: the aggregate row of the SQL query
    before its [SELECT] list is applied, the MongoDB document after
    [$unwind]. *)
Record Ranked := {
  rk_twitterId : string;
  rk_user : Profile;
  highScore : Z
}.

(** A row of the [GET /api/leaderboard] response. *)
Record LeaderboardRow := {
  lb_username : string;
  lb_photoUrl : string;
  lb_profileUrl : string;
  lb_highScore : Z
}.

Global Instance Ranked_eq_dec : EqDecision Ranked.
Proof. solve_decision. Defined.
Global Instance LeaderboardRow_eq_dec : EqDecision LeaderboardRow.
Proof. solve_decision. Defined.

(** The [SELECT u.username, u.photoUrl, u.profileUrl, MAX(s.score) as
    highScore] list, and MongoDB's [$project]. *)
Definition project (r : Ranked) : LeaderboardRow :=
  {| lb_username := username (rk_user r);
     lb_photoUrl := photoUrl (rk_user r);
     lb_profileUrl := profileUrl (rk_user r);
     lb_highScore := highScore r |}.

(* ===================================================================== *)
(** * Placement detection (identical text in the three servers) *)
(* ===================================================================== *)

Section detector.
Context {R : Type} (row_username : R → string) (row_highScore : R → Z).

(** [rows.findIndex(r => r.username === req.user.username) + 1]. *)
Definition rank (rows : list R) (name : string) : nat :=
  match list_find (λ r, row_username r = name) rows with
  | Some (i, _) => S i
  | None => O
  end.

(** [rows.find(r => r.username === req.user.username)]. *)
Definition userRecord (rows : list R) (name : string) : option R :=
  snd <$> list_find (λ r, row_username r = name) rows.

(** [rank > 0 && rank <= 3 && userRecord && userRecord.highScore === score]. *)
Definition placed (rows : list R) (name : string) (score : Z) : bool :=
  bool_decide (0 < rank rows name)%nat &&
  bool_decide (rank rows name ≤ 3)%nat &&
  match userRecord rows name with
  | Some r => bool_decide (row_highScore r = score)
  | None => false
  end.
End detector.

(** The crown emoji, U+1F451, as its four UTF-8 bytes. *)
Definition crown : string :=
  String (Ascii.ascii_of_nat 240) (String (Ascii.ascii_of_nat 159)
    (String (Ascii.ascii_of_nat 145) (String (Ascii.ascii_of_nat 145) ""))).

(** A score is a JavaScript number.  The integers of the safe range,
    [-(2^53 - 1)] to [2^53 - 1], are the ones a number holds exactly. *)
Definition safe_integer (n : Z) : Prop :=
  -9007199254740991 ≤ n ≤ 9007199254740991.

Global Instance safe_integer_dec n : Decision (safe_integer n).
Proof. unfold safe_integer. apply _. Defined.

(** What [`${score}`] prints.  For an integer of the safe range it is its
    decimal digits; outside of it the text is that of the nearest double
    ([9223372036854776000] for [2^63], [1e+21] for [10^21]), of which
    nothing is assumed here. *)
Class NumberText := {
  number_text : Z → string;
  number_text_safe : ∀ n, safe_integer n → number_text n = pretty n
}.

(** One printer, for the examples: their scores are far inside the safe
    range, where all printers agree. *)
Definition decimal_text : NumberText :=
  {| number_text := pretty;
     number_text_safe := λ n _, eq_refl |}.

(** The template literal of the announcement; [rk] is 1, 2 or 3. *)
Definition announcement `{T : NumberText} (name : string) (rk : nat)
    (score : Z) : string :=
  crown +:+ " @" +:+ name +:+ " just took #" +:+ pretty rk +:+
  " place with " +:+ number_text score +:+ " points!".

Definition system_message `{T : NumberText} (name : string) (rk : nat)
    (score : Z) : ChatMessage :=
  {| user := "SYSTEM"; text := announcement name rk score |}.

(* ===================================================================== *)
(** * Route handlers as effectful programs *)
(* ===================================================================== *)

(** What a handler sends back: [res.status(401).json(..)],
    [res.status(500).json(..)], [res.json({ success: true })]. *)
Inductive Response :=
  | NotAuthenticated
  | ServerError
  | Success.

(** The observable effects of a handler, in the order the handler causes
    them.  An insert is recorded where the handler issues it, with its
    outcome; server.js does not wait for the outcome of the message
    insert. *)
Inductive Effect :=
  | InsertScore (tid : string) (score : Z) (ok : bool)
  | InsertMessage (m : ChatMessage) (ok : bool)
  | Emit (m : ChatMessage)
  | Respond (r : Response).

Global Instance Response_eq_dec : EqDecision Response.
Proof. solve_decision. Defined.
Global Instance Effect_eq_dec : EqDecision Effect.
Proof. solve_decision. Defined.

(** The storage layer may fail on any call; which calls fail is an input. *)
Record Faults := {
  score_insert_fails : bool;
  top3_query_fails : bool;
  message_insert_fails : bool
}.

Definition no_faults : Faults :=
  {| score_insert_fails := false;
     top3_query_fails := false;
     message_insert_fails := false |}.

(** [req]: [req.isAuthenticated()] holds exactly when the session carries a
    user; [req.body.score], an integer as the ledger's scores are. *)
Record Request := {
  session : option SessionUser;
  body_score : Z
}.

(** A handler threads the store, appends to the effect trace, and may
    throw. *)
Inductive Outcome (A : Type) :=
  | Ret (a : A)
  | Throw.
Arguments Ret {A} a.
Arguments Throw {A}.

Definition M (A : Type) : Type := Store → Outcome A * Store * list Effect.

Global Instance M_ret : MRet M := λ A a st, (Ret a, st, []).
Definition throw {A} : M A := λ st, (Throw, st, []).
Global Instance M_bind : MBind M := λ A B k m st,
  match m st with
  | (Ret a, st1, t1) => let '(r, st2, t2) := k a st1 in (r, st2, t1 ++ t2)
  | (Throw, st1, t1) => (Throw, st1, t1)
  end.
(** [try { body } catch (err) { handler }]. *)
Definition try_catch {A} (body handler : M A) : M A := λ st,
  match body st with
  | (Ret a, st1, t1) => (Ret a, st1, t1)
  | (Throw, st1, t1) => let '(r, st2, t2) := handler st1 in (r, st2, t1 ++ t2)
  end.

Definition get_store : M Store := λ st, (Ret st, st, []).
Definition effect (e : Effect) : M unit := λ st, (Ret tt, st, [e]).
Definition respond (r : Response) : M unit := effect (Respond r).
(** [io.emit('chat message', m)]. *)
Definition emit (m : ChatMessage) : M unit := effect (Emit m).

(** The score insert; returns whether the storage layer reported an error. *)
Definition store_insert_score (f : Faults) (tid : string) (score : Z) : M bool :=
  λ st,
    if score_insert_fails f
    then (Ret true, st, [InsertScore tid score false])
    else (Ret false, insert_score tid score st, [InsertScore tid score true]).

(** The message insert; returns whether the storage layer reported an
    error. *)
Definition store_insert_message (f : Faults) (m : ChatMessage) : M bool :=
  λ st,
    if message_insert_fails f
    then (Ret true, st, [InsertMessage m false])
    else (Ret false, insert_message m st, [InsertMessage m true]).

(** The upsert of a user; returns whether the storage layer reported an
    error. *)
Definition store_upsert_user (fails : bool) (u : SessionUser) : M bool :=
  λ st,
    if fails then (Ret true, st, []) else (Ret false, upsert_user u st, []).

(** How a read query ends: the storage layer answers it, or reports an
    error ([err], [{ error }], a rejected promise). *)
Inductive Query :=
  | Answered
  | Failed.

(** What becomes of the process once a callback has returned: node-sqlite3
    reports the failure of a statement that was run without a callback as
    an ['error'] event, and an ['error'] event nobody listens to ends the
    process. *)
Inductive Process :=
  | Running
  | Exited.

(** Running a handler. *)
Definition run {A} (m : M A) (st : Store) : Outcome A * Store * list Effect := m st.
Definition final_store {A} (r : Outcome A * Store * list Effect) : Store := r.1.2.
Definition trace {A} (r : Outcome A * Store * list Effect) : list Effect := r.2.

(** The messages broadcast by [io.emit] during a trace. *)
Definition emitted (t : list Effect) : list ChatMessage :=
  omap (λ e, match e with Emit m => Some m | _ => None end) t.
(** The responses sent during a trace. *)
Definition responses (t : list Effect) : list Response :=
  omap (λ e, match e with Respond r => Some r | _ => None end) t.

(* ===================================================================== *)
(** * server.js (SQLite) *)
(* ===================================================================== *)

Module Sqlite.
Section with_engine.
Context {E : Engine} {T : NumberText}.

(** [FROM scores s JOIN users u ON s.twitterId = u.twitterId]. *)
Definition joined (st : Store) : list (string * Profile * Z) :=
  omap (λ s, u ← users st !! row_twitterId s;
             Some (row_twitterId s, u, row_score s)) (scores st).

(** [GROUP BY u.twitterId] with [MAX(s.score) as highScore]. *)
Definition grouped (st : Store) : list Ranked :=
  (λ '(k, (u, v)), {| rk_twitterId := k; rk_user := u; highScore := v |})
    <$> map_to_list (group_max (joined st)).

(** [ORDER BY highScore DESC]. *)
Definition ranking (st : Store) : list Ranked :=
  order_desc highScore (grouped st).

(** [GET /api/leaderboard]: the query with [LIMIT 20], sent as JSON. *)
Definition leaderboard (st : Store) : list LeaderboardRow :=
  project <$> take 20 (ranking st).

(** [checkQuery]: the same query with [LIMIT 3].  Its [SELECT] list keeps
    [u.username] and [highScore], the two fields the callback reads; the
    group key is kept here to name the row's identity in statements. *)
Definition checkQuery (st : Store) : list Ranked :=
  take 3 (ranking st).

Definition db_all_checkQuery (f : Faults) : M (option (list Ranked)) :=
  st ← get_store;
  mret (if top3_query_fails f then None else Some (checkQuery st)).

(** [POST /api/score]. *)
Definition post_score (f : Faults) (req : Request) : M unit :=
  match session req with
  | None => respond NotAuthenticated
  | Some u =>
    let score := body_score req in
    err ← store_insert_score f (twitterId u) score;
    if err : bool then respond ServerError
    else
      (* [db.all(checkQuery, ..)] is queued; [res.json] runs first. *)
      respond Success;;
      rows ← db_all_checkQuery f;
      match rows with
      | None => mret tt
      | Some rows =>
        let name := username (session_profile u) in
        if placed (username ∘ rk_user) highScore rows name score
        then
          let m := system_message name
                     (rank (username ∘ rk_user) rows name) score in
          (* [sysStmt.run] has no callback: the handler does not wait for
             its outcome and goes on to [io.emit]. *)
          _ ← store_insert_message f m;
          emit m
        else mret tt
      end
  end.

(** The [connection] handler's replay: [SELECT user, text FROM messages
    ORDER BY id DESC LIMIT 50]; the callback returns when the query has
    failed ([if (err) return console.error(err)]), and emits
    [rows.reverse()] otherwise. *)
Definition replay (q : Query) (st : Store) : list ChatMessage :=
  match q with
  | Failed => []
  | Answered =>
    (λ row, {| user := msg_user row; text := msg_text row |})
      <$> reverse (take 50 (order_desc msg_id (messages st)))
  end.
End with_engine.

(** The verify callback of the Twitter strategy: build [user], queue the
    [INSERT OR REPLACE] with [stmt.run] (no callback), then
    [cb(null, user)].  The value returned is the user passport stores in
    the session ([serializeUser] and [deserializeUser] pass it on as it
    is), with what becomes of the process: when the queued statement
    fails, its ['error'] event has no listener and the process exits. *)
Definition verify (upsert_fails : bool) (profile : TwitterProfile)
    : M (SessionUser * Process) :=
  match user_of profile with
  | None => throw
  | Some user =>
    err ← store_upsert_user upsert_fails user;
    mret (user, if err : bool then Exited else Running)
  end.

(** [socket.on('chat message', msg)]: [stmt.run(msg.user, msg.text)] (no
    callback), then [io.emit('chat message', msg)]. *)
Definition chat_message (f : Faults) (msg : ChatMessage) : M unit :=
  _ ← store_insert_message f msg;
  emit msg.
End Sqlite.

(* ===================================================================== *)
(** * server_mongo.js (MongoDB) *)
(* ===================================================================== *)

Module Mongo.
Section with_engine.
Context {E : Engine} {T : NumberText}.

(** [{ $sort: { score: -1 } }]. *)
Definition sorted_scores (st : Store) : list ScoreRow :=
  order_desc row_score (scores st).

(** [{ $group: { _id: "$twitterId", highScore: { $max: "$score" } } }]. *)
Definition grouped (st : Store) : list (string * Z) :=
  (λ '(k, (_, v)), (k, v)) <$>
    map_to_list (group_max ((λ s, (row_twitterId s, (), row_score s))
                              <$> sorted_scores st)).

(** [$lookup] from [users] on [twitterId], then [$unwind]: a group
    without a user document disappears. *)
Definition unwound (st : Store) : list Ranked :=
  omap (λ '(k, v), u ← users st !! k;
                   Some {| rk_twitterId := k; rk_user := u; highScore := v |})
       (grouped st).

(** [$project] (which keeps [_id]), then [{ $sort: { highScore: -1 } }]. *)
Definition projected (st : Store) : list (string * LeaderboardRow) :=
  order_desc (lb_highScore ∘ snd)
    ((λ r, (rk_twitterId r, project r)) <$> unwound st).

(** [GET /api/leaderboard]: the pipeline ends with [{ $limit: 20 }]. *)
Definition leaderboard (st : Store) : list (string * LeaderboardRow) :=
  take 20 (projected st).

(** The pipeline of [POST /api/score] has no [$project]: [$unwind], then
    [{ $sort: { highScore: -1 } }]. *)
Definition ranking (st : Store) : list Ranked :=
  order_desc highScore (unwound st).

(** It ends with [{ $limit: 3 }]. *)
Definition top3 (st : Store) : list Ranked :=
  take 3 (ranking st).

(** [await scores.aggregate([..]).toArray()] rejects when the storage
    layer fails. *)
Definition aggregate_top3 (f : Faults) : M (list Ranked) :=
  st ← get_store;
  if top3_query_fails f then throw else mret (top3 st).

(** [await coll.insertOne(..)] rejects when the storage layer fails. *)
Definition insertOne_score (f : Faults) (tid : string) (score : Z) : M unit :=
  err ← store_insert_score f tid score;
  if err : bool then throw else mret ().
Definition insertOne_message (f : Faults) (m : ChatMessage) : M unit :=
  err ← store_insert_message f m;
  if err : bool then throw else mret ().

(** [POST /api/score]. *)
Definition post_score (f : Faults) (req : Request) : M unit :=
  match session req with
  | None => respond NotAuthenticated
  | Some u =>
    let score := body_score req in
    try_catch
      (insertOne_score f (twitterId u) score;;
       top3 ← aggregate_top3 f;
       let name := username (session_profile u) in
       (if placed (username ∘ rk_user) highScore top3 name score
        then
          let m := system_message name
                     (rank (username ∘ rk_user) top3 name) score in
          insertOne_message f m;;
          emit m
        else mret ());;
       respond Success)
      (respond ServerError)
  end.

(** The [connection] handler's replay.  Nothing happens unless [db] is
    set ([if (db)]: it is once [connectDB] has resolved).  Then
    [find().sort({ _id: -1 }).limit(50).toArray()] is issued; [.then]
    emits [rows.reverse()] when the promise resolves, and there is no
    handler for its rejection. *)
Definition replay (db_set : bool) (q : Query) (st : Store)
    : list ChatMessage :=
  if db_set then
    match q with
    | Failed => []
    | Answered =>
      (λ row, {| user := msg_user row; text := msg_text row |})
        <$> reverse (take 50 (order_desc msg_id (messages st)))
    end
  else [].
End with_engine.

(** The verify callback: build [user], [await users.updateOne(.., { upsert:
    true })], then [cb(null, user)].  A rejected update leaves the callback
    uncalled. *)
Definition verify (upsert_fails : bool) (profile : TwitterProfile)
    : M (SessionUser * Process) :=
  match user_of profile with
  | None => throw
  | Some user =>
    err ← store_upsert_user upsert_fails user;
    if err : bool then throw else mret (user, Running)
  end.

(** [socket.on('chat message', msg)], the database being connected
    ([if (db)]): [await insertOne(..)], then [io.emit('chat message', msg)];
    a rejected insert ends the handler. *)
Definition chat_message (f : Faults) (msg : ChatMessage) : M unit :=
  insertOne_message f msg;;
  emit msg.
End Mongo.

(* ===================================================================== *)
(** * server_supabase.js (Supabase) *)
(* ===================================================================== *)

Module Supabase.
(** A row of [select(`score, users (..)`)]: the score with the embedded
    user, [null] when the score has no related user row. *)
Record Entry := {
  entry_score : Z;
  entry_users : option Profile
}.

Definition row_of (u : Profile) (score : Z) : LeaderboardRow :=
  {| lb_username := username u;
     lb_photoUrl := photoUrl u;
     lb_profileUrl := profileUrl u;
     lb_highScore := score |}.

(** The [data.forEach] of the leaderboard route over a [Map] keyed by
    [username], which iterates in insertion order.  [None] is the
    [TypeError] of reading [entry.users.username] on [null]. *)
Fixpoint forEach_entry (data : list Entry)
    (userMap : list (string * LeaderboardRow))
    : option (list (string * LeaderboardRow)) :=
  match data with
  | [] => Some userMap
  | entry :: data' =>
    match entry_users entry with
    | None => None
    | Some u =>
      if decide (username u ∈ userMap.*1)
      then forEach_entry data' userMap
      else forEach_entry data'
             (userMap ++ [(username u, row_of u (entry_score entry))])
    end
  end.

(** The [for (const s of allScores)] loop of the score route, with its
    [seen] set and [uniqueScores] array of [{username, highScore}]. *)
Fixpoint deduplicate (allScores : list Entry) (seen : gset string)
    (uniqueScores : list (string * Z)) : option (list (string * Z)) :=
  match allScores with
  | [] => Some uniqueScores
  | s :: rest =>
    match entry_users s with
    | None => None
    | Some u =>
      if decide (username u ∈ seen)
      then deduplicate rest seen uniqueScores
      else deduplicate rest ({[username u]} ∪ seen)
             (uniqueScores ++ [(username u, entry_score s)])
    end
  end.

Section with_engine.
Context {E : Engine} {T : NumberText}.

(** [from('scores').select(..).order('score', { ascending: false })]. *)
Definition select_scores (st : Store) : list Entry :=
  order_desc entry_score
    ((λ s, {| entry_score := row_score s;
              entry_users := users st !! row_twitterId s |}) <$> scores st).

(** The [userMap] the leaderboard route builds from the query's rows. *)
Definition userMap (st : Store) : option (list (string * LeaderboardRow)) :=
  forEach_entry (select_scores st) [].

(** [GET /api/leaderboard]: [if (error) throw error] on the query, then
    [Array.from(userMap.values()).slice(0, 20)]; [None] is the [catch]
    branch (status 500). *)
Definition leaderboard (q : Query) (st : Store)
    : option (list LeaderboardRow) :=
  match q with
  | Failed => None
  | Answered =>
    userMap ← userMap st;
    Some (take 20 (userMap.*2))
  end.

(** [const { data: allScores } = await ..]: [null] when the query
    fails. *)
Definition select_allScores (f : Faults) : M (option (list Entry)) :=
  st ← get_store;
  mret (if top3_query_fails f then None else Some (select_scores st)).

(** The [uniqueScores] the score route builds from the query's rows. *)
Definition uniqueScores (st : Store) : option (list (string * Z)) :=
  deduplicate (select_scores st) ∅ [].

(** [uniqueScores.slice(0, 3)]. *)
Definition top3 (st : Store) : option (list (string * Z)) :=
  take 3 <$> uniqueScores st.

(** [POST /api/score]. *)
Definition post_score (f : Faults) (req : Request) : M unit :=
  match session req with
  | None => respond NotAuthenticated
  | Some u =>
    let score := body_score req in
    try_catch
      (error ← store_insert_score f (twitterId u) score;
       if error : bool then throw
       else
         allScores ← select_allScores f;
         match allScores with
         | None => throw (* allScores is not iterable *)
         | Some allScores =>
           match deduplicate allScores ∅ [] with
           | None => throw
           | Some uniqueScores =>
             let top3 := take 3 uniqueScores in
             let name := username (session_profile u) in
             (if placed fst snd top3 name score
              then
                let m := system_message name (rank fst top3 name) score in
                (* the [{ error }] of this insert is not read *)
                _ ← store_insert_message f m;
                emit m
              else mret ());;
             respond Success
           end
         end)
      (respond ServerError)
  end.

(** The [connection] handler's replay:
    [order('created_at', { ascending: false }).limit(50)], then, under
    [if (!error && data)], [data.reverse().forEach(emit)]; [created_at],
    the time of the insert, orders the rows as [msg_id] does. *)
Definition replay (q : Query) (st : Store) : list ChatMessage :=
  match q with
  | Failed => []
  | Answered =>
    (λ row, {| user := msg_user row; text := msg_text row |})
      <$> reverse (take 50 (order_desc msg_id (messages st)))
  end.
End with_engine.

(** The verify callback: build [user], [await upsert(user, ..)], log the
    [error] if any, then [cb(null, ..)] with the same fields. *)
Definition verify (upsert_fails : bool) (profile : TwitterProfile)
    : M (SessionUser * Process) :=
  match user_of profile with
  | None => throw
  | Some user =>
    _ ← store_upsert_user upsert_fails user;
    mret (user, Running)
  end.

(** [socket.on('chat message', msg)]: the insert, then
    [if (!error) io.emit('chat message', msg)]. *)
Definition chat_message (f : Faults) (msg : ChatMessage) : M unit :=
  error ← store_insert_message f msg;
  if error : bool then mret () else emit msg.
End Supabase.


(* ===================================================================== *)
(** * Connections: the event loop around the [connection] handler *)
(* ===================================================================== *)

(** What a client receives on its socket, and by which path. *)
Inductive Delivery :=
  | Replayed (m : ChatMessage)
  | Live (m : ChatMessage).

(** Where a socket's history query stands: issued by the [connection]
    handler, evaluated by the storage engine (against the store it saw),
    handed to the callback that emits the rows. *)
Inductive Phase :=
  | Querying
  | Fetched (seen : Store)
  | Delivered (seen : Store).

Record Socket := {
  phase : Phase;
  inbox : list Delivery
}.

Record Server := {
  db : Store;
  sockets : gmap nat Socket
}.

(** The steps of the event loop.  Every callback of the source runs to
    completion before the next one starts; storage calls complete between
    callbacks.
    - [Connect c]: socket [c] joins the server (from now on [io.emit]
      reaches it) and its handler issues the history query;
    - [Fetch c]: the storage engine evaluates that query;
    - [Deliver c]: the query's callback emits the rows to [c];
    - [Commit m]: an [INSERT INTO messages] reaches the table;
    - [Publish m]: [io.emit('chat message', m)]. *)
Inductive Event :=
  | Connect (c : nat)
  | Fetch (c : nat)
  | Deliver (c : nat)
  | Commit (m : ChatMessage)
  | Publish (m : ChatMessage).

Global Instance Delivery_eq_dec : EqDecision Delivery.
Proof. solve_decision. Defined.

Section event_loop.
Context (replay : Store → list ChatMessage).

Definition receive (d : list Delivery) (k : Socket) : Socket :=
  {| phase := phase k; inbox := inbox k ++ d |}.

Definition step (s : Server) (e : Event) : Server :=
  match e with
  | Connect c =>
    match sockets s !! c with
    | Some _ => s
    | None =>
      {| db := db s;
         sockets := <[c := {| phase := Querying; inbox := [] |}]> (sockets s) |}
    end
  | Fetch c =>
    match sockets s !! c with
    | Some {| phase := Querying; inbox := i |} =>
      {| db := db s;
         sockets := <[c := {| phase := Fetched (db s); inbox := i |}]> (sockets s) |}
    | _ => s
    end
  | Deliver c =>
    match sockets s !! c with
    | Some {| phase := Fetched seen; inbox := i |} =>
      {| db := db s;
         sockets := <[c := {| phase := Delivered seen;
                              inbox := i ++ (Replayed <$> replay seen) |}]>
                      (sockets s) |}
    | _ => s
    end
  | Commit m => {| db := insert_message m (db s); sockets := sockets s |}
  | Publish m => {| db := db s; sockets := receive [Live m] <$> sockets s |}
  end.

Definition run_events (s : Server) (es : list Event) : Server :=
  foldl step s es.


(** What socket [c] has received so far. *)
Definition received (s : Server) (c : nat) : list Delivery :=
  match sockets s !! c with
  | Some k => inbox k
  | None => []
  end.
End event_loop.

(* ===================================================================== *)
(** * Notions the statements use *)
(* ===================================================================== *)

(** The scores identity [tid] has submitted. *)
Definition scores_of (tid : string) (ss : list ScoreRow) : list Z :=
  row_score <$> filter (λ s, row_twitterId s = tid) ss.

(** The largest element of a list of scores. *)
Definition maximum (l : list Z) : option Z :=
  foldr (λ x acc, Some (match acc with Some a => Z.max x a | None => x end))
        None l.

(** An identity's best score in a ledger. *)
Definition bestScore (tid : string) (ss : list ScoreRow) : option Z :=
  maximum (scores_of tid ss).

(** The session's user is the directory's record of that identity: the
    login callback upserts the very object it stores in the session. *)
Definition registered (st : Store) (u : SessionUser) : Prop :=
  users st !! twitterId u = Some (session_profile u).

(** The session carries the username the directory records for its
    identity.  The session's user is the object built at login; a later
    login of the same identity under another username rewrites the
    directory and leaves the sessions opened before as they were. *)
Definition session_current (st : Store) (u : SessionUser) : Prop :=
  username <$> users st !! twitterId u = Some (username (session_profile u)).

(** No other identity of the directory carries [u]'s username. *)
Definition username_unshared (st : Store) (u : SessionUser) : Prop :=
  ∀ tid p, users st !! tid = Some p →
    username p = username (session_profile u) → tid = twitterId u.

(** Every score of the ledger belongs to an identity of the directory. *)
Definition ledger_covered (st : Store) : Prop :=
  Forall (λ s, is_Some (users st !! row_twitterId s)) (scores st).

Global Instance registered_dec st u : Decision (registered st u).
Proof. unfold registered. apply _. Defined.
Global Instance session_current_dec st u : Decision (session_current st u).
Proof. unfold session_current. apply _. Defined.
Global Instance username_unshared_dec st u : Decision (username_unshared st u).
Proof.
  unfold username_unshared.
  apply (map_Forall_dec
           (λ tid p, username p = username (session_profile u) → tid = twitterId u)).
Defined.
Global Instance ledger_covered_dec st : Decision (ledger_covered st).
Proof. unfold ledger_covered. apply _. Defined.

(** The request of identity [u] submitting [score]. *)
Definition submit (u : SessionUser) (score : Z) : Request :=
  {| session := Some u; body_score := score |}.

(** [l] is a ranking of the store: one row per identity that has a profile
    and a score, carrying its profile and best score, best first. *)
Definition ranks (st : Store) (l : list Ranked) : Prop :=
  NoDup (rk_twitterId <$> l) ∧
  (∀ r, r ∈ l ↔
        users st !! rk_twitterId r = Some (rk_user r) ∧
        bestScore (rk_twitterId r) (scores st) = Some (highScore r)) ∧
  StronglySorted (desc highScore) l.

(** The values the rows of key [k] carry, in order. *)
Definition values_of {P} (k : string) (rows : list (string * P * Z))
    : list Z :=
  omap (λ '(k', _, v), if decide (k' = k) then Some v else None) rows.

(** The rows of [l] whose key is met for the first time, [seen] being the
    keys met before [l]. *)
Fixpoint first_seen {A} (key : A → string) (l : list A) (seen : gset string)
    : list A :=
  match l with
  | [] => []
  | x :: l' =>
    if decide (key x ∈ seen) then first_seen key l' seen
    else x :: first_seen key l' ({[key x]} ∪ seen)
  end.

(** The rows of a Supabase query with their embedded user, when every row
    has one. *)
Definition named (data : list Supabase.Entry) : option (list (Profile * Z)) :=
  mapM (λ e, p ← Supabase.entry_users e; Some (p, Supabase.entry_score e))
       data.

(** The payload of a row of [messages]. *)
Definition payload (row : MessageRow) : ChatMessage :=
  {| user := msg_user row; text := msg_text row |}.

(** The store after the announcements [ms] have been logged. *)
Definition logged (ms : list ChatMessage) (st : Store) : Store :=
  foldl (λ s m, insert_message m s) st ms.

(** A store whose chat log is empty. *)
Definition fresh (us : gmap string Profile) (ss : list ScoreRow) : Store :=
  {| users := us; scores := ss; messages := [] |}.

(** The score insert succeeds and the leaderboard recomputation fails. *)
Definition recompute_fails : Faults :=
  {| score_insert_fails := false;
     top3_query_fails := true;
     message_insert_fails := false |}.

(** The score insert and the recomputation succeed; logging the
    announcement fails. *)
Definition logging_fails : Faults :=
  {| score_insert_fails := false;
     top3_query_fails := false;
     message_insert_fails := true |}.

(** In the trace [t] every broadcast comes right after the insert of the
    same message was issued. *)
Fixpoint insert_precedes_emit (t : list Effect) : bool :=
  match t with
  | [] => true
  | Emit _ :: _ => false
  | InsertMessage m _ :: t' =>
    match t' with
    | Emit m' :: t'' => bool_decide (m = m') && insert_precedes_emit t''
    | _ => insert_precedes_emit t'
    end
  | _ :: t' => insert_precedes_emit t'
  end.


(** The last 50 elements of a list. *)
Definition last_fifty {A} (l : list A) : list A := drop (length l - 50) l.


(** The scores of the identities whose directory record carries the
    username [name]. *)
Definition scores_named (name : string) (st : Store) : list Z :=
  row_score <$>
    filter (λ s, username <$> users st !! row_twitterId s = Some name)
           (scores st).

(** The rows of a ranking whose best score is above [score]. *)
Definition beating {R} (row_highScore : R → Z) (score : Z) (rows : list R)
    : list R :=
  filter (λ r, score < row_highScore r) rows.

(** The store a score submission leaves once its score insert has been
    attempted. *)
Definition recorded (f : Faults) (req : Request) (st : Store) : Store :=
  match session req with
  | Some u =>
    if score_insert_fails f then st
    else insert_score (twitterId u) (body_score req) st
  | None => st
  end.

(** At most one identity of the directory has [score] as its best score;
    at most one username has [score] as the best score submitted under
    it. *)
Definition untied (st : Store) (score : Z) : Prop :=
  ∀ t1 t2, is_Some (users st !! t1) → is_Some (users st !! t2) →
    bestScore t1 (scores st) = Some score →
    bestScore t2 (scores st) = Some score → t1 = t2.
Definition untied_names (st : Store) (score : Z) : Prop :=
  ∀ n1 n2, maximum (scores_named n1 st) = Some score →
           maximum (scores_named n2 st) = Some score → n1 = n2.

(** The keys of the chat log grow with the position of the row. *)
Definition increasing (ms : list MessageRow) : Prop :=
  StronglySorted (λ a b, msg_id a < msg_id b) ms.

(** The messages broadcast during the events [es], and the messages a
    socket received live. *)
Definition publishes (es : list Event) : list ChatMessage :=
  omap (λ e, match e with Publish m => Some m | _ => None end) es.
Definition lives (d : list Delivery) : list ChatMessage :=
  omap (λ x, match x with Live m => Some m | Replayed _ => None end) d.

(* ===================================================================== *)
(** * Sample data *)
(* ===================================================================== *)

Definition profile_of (name : string) : Profile :=
  {| username := name; displayName := name;
     photoUrl := "https://pbs.twimg.com/" +:+ name;
     profileUrl := "https://twitter.com/" +:+ name |}.

Definition login_as (tid name : string) : SessionUser :=
  {| twitterId := tid; session_profile := profile_of name |}.

Definition alice : SessionUser := login_as "1001" "alice".
Definition bob : SessionUser := login_as "1002" "bob".
(** A second account that now holds the handle the directory still caches
    for [alice]. *)
Definition alice2 : SessionUser := login_as "1003" "alice".

Definition empty_store : Store :=
  {| users := ∅; scores := []; messages := [] |}.

(** [alice] and [bob] have logged in; [alice] has scored 10 and 50. *)
Definition sample_store : Store :=
  insert_score "1001" 50
    (insert_score "1001" 10 (upsert_user bob (upsert_user alice empty_store))).

(** [alice] and [alice2] have logged in; [alice] has scored 70. *)
Definition shared_name_store : Store :=
  insert_score "1001" 70 (upsert_user alice2 (upsert_user alice empty_store)).

(** [alice] and [alice2] share a username; [alice] has scored 70 and
    [alice2] 50. *)
Definition shared_name_store2 : Store :=
  insert_score "1003" 50 shared_name_store.




(* ===================================================================== *)
(** * The application: sessions around the handlers *)
(* ===================================================================== *)

(** The three servers are the same application around different
    handlers. *)
Record Handlers := {
  h_verify : bool → TwitterProfile → M (SessionUser * Process);
  h_post_score : Faults → Request → M unit;
  h_chat_message : Faults → ChatMessage → M unit
}.

Definition sqlite_handlers (E : Engine) (T : NumberText) : Handlers :=
  {| h_verify := Sqlite.verify;
     h_post_score := Sqlite.post_score;
     h_chat_message := Sqlite.chat_message |}.
Definition mongo_handlers (E : Engine) (T : NumberText) : Handlers :=
  {| h_verify := Mongo.verify;
     h_post_score := Mongo.post_score;
     h_chat_message := Mongo.chat_message |}.
Definition supabase_handlers (E : Engine) (T : NumberText) : Handlers :=
  {| h_verify := Supabase.verify;
     h_post_score := Supabase.post_score;
     h_chat_message := Supabase.chat_message |}.

(** The store and the sessions of express-session, by session id.  A
    session holds the user [serializeUser] was given, and [req.user] is
    what [deserializeUser] returns for it: the same object. *)
Record App := {
  app_store : Store;
  app_sessions : gmap nat SessionUser
}.

(** What reaches the server:
    - [Login sid profile fails]: the OAuth callback of session [sid], the
      provider having returned [profile]; [fails] tells whether the upsert
      of the user fails;
    - [Logout sid]: [GET /auth/logout];
    - [PostScore sid score f]: [POST /api/score] with [{ score }];
    - [ChatPost msg f]: a ['chat message'] event from a socket. *)
Inductive Action :=
  | Login (sid : nat) (profile : TwitterProfile) (upsert_fails : bool)
  | Logout (sid : nat)
  | PostScore (sid : nat) (score : Z) (f : Faults)
  | ChatPost (msg : ChatMessage) (f : Faults).

(** One step of the application.  A login whose callback has handed a
    user to [cb] opens the session; when the process exits, the sessions
    it held are gone and the tables remain. *)
Definition serve (h : Handlers) (a : App) (act : Action) : App :=
  match act with
  | Login sid profile fails =>
    match run (h_verify h fails profile) (app_store a) with
    | (Ret (user, Running), st, _) =>
      {| app_store := st; app_sessions := <[sid := user]> (app_sessions a) |}
    | (Ret (_, Exited), st, _) =>
      (* the sessions of server.js are held in the memory of the process *)
      {| app_store := st; app_sessions := ∅ |}
    | (Throw, st, _) =>
      {| app_store := st; app_sessions := app_sessions a |}
    end
  | Logout sid =>
    {| app_store := app_store a; app_sessions := delete sid (app_sessions a) |}
  | PostScore sid score f =>
    let req := {| session := app_sessions a !! sid; body_score := score |} in
    {| app_store := final_store (run (h_post_score h f req) (app_store a));
       app_sessions := app_sessions a |}
  | ChatPost msg f =>
    {| app_store := final_store (run (h_chat_message h f msg) (app_store a));
       app_sessions := app_sessions a |}
  end.

Definition serve_all (h : Handlers) (a : App) (acts : list Action) : App :=
  foldl (serve h) a acts.

(** The application as it starts on empty tables. *)
Definition start : App := {| app_store := empty_store; app_sessions := ∅ |}.

(** The identities the provider has returned to a login callback. *)
Definition logins (acts : list Action) : list string :=
  omap (λ act, match act with
               | Login _ profile _ => Some (profile_id profile)
               | _ => None
               end) acts.

(** No upsert of a user fails. *)
Definition upserts_succeed (acts : list Action) : bool :=
  forallb (λ act, match act with
                  | Login _ _ fails => negb fails
                  | _ => true
                  end) acts.

(* ===================================================================== *)
(** * Proofs *)
(* ===================================================================== *)

Ltac unfold_handler :=
  unfold run, trace, final_store, emitted, responses,
    Sqlite.post_score, Mongo.post_score, Supabase.post_score,
    Sqlite.db_all_checkQuery, Mongo.aggregate_top3, Mongo.insertOne_score,
    Mongo.insertOne_message, Supabase.select_allScores,
    store_insert_score, store_insert_message, try_catch, respond, emit,
    effect, get_store, throw, mbind, mret, M_bind, M_ret;
  cbn [session body_score].

(* ===================================================================== *)
(** * Lists of scores and their maximum *)
(* ===================================================================== *)

Lemma maximum_nil_iff (l : list Z) : maximum l = None ↔ l = [].
Proof. destruct l; simpl; split; congruence. Qed.

Lemma maximum_cons (x : Z) (l : list Z) :
  maximum (x :: l) =
  Some (match maximum l with Some a => Z.max x a | None => x end).
Proof. reflexivity. Qed.

Lemma maximum_snoc (l : list Z) (x : Z) :
  maximum (l ++ [x]) =
  Some (match maximum l with Some a => Z.max a x | None => x end).
Proof.
  induction l as [|y l IH]; [done|].
  change ((y :: l) ++ [x]) with (y :: (l ++ [x])).
  rewrite !maximum_cons, IH. destruct (maximum l); f_equal; lia.
Qed.

Lemma maximum_Some (l : list Z) (v : Z) :
  maximum l = Some v ↔ v ∈ l ∧ ∀ x, x ∈ l → x ≤ v.
Proof.
  revert v. induction l as [|y l IH]; intros v.
  - simpl. split; [done|]. intros [H _]. by apply elem_of_nil in H.
  - rewrite maximum_cons. destruct (maximum l) as [a|] eqn:Ha.
    + destruct (proj1 (IH a) eq_refl) as [Hin Hle]. split.
      * intros [= <-]. split.
        -- destruct (Z.max_spec y a) as [[_ ->]|[_ ->]];
             [by right | by left].
        -- intros x [->|Hx]%elem_of_cons; [lia|]. specialize (Hle x Hx). lia.
      * intros [Hv Hmax]. f_equal.
        assert (y ≤ v) by (apply Hmax; by left).
        assert (a ≤ v) by (apply Hmax; by right).
        apply elem_of_cons in Hv as [->|Hv]; [lia|].
        specialize (Hle v Hv). lia.
    + apply maximum_nil_iff in Ha as ->. split.
      * intros [= <-]. split; [by left|].
        intros x [->|Hx]%elem_of_cons; [lia|]. by apply elem_of_nil in Hx.
      * intros [[->|Hv]%elem_of_cons _]; [done|]. by apply elem_of_nil in Hv.
Qed.

Lemma scores_of_snoc (tid tid' : string) (v : Z) (ss : list ScoreRow) :
  scores_of tid (ss ++ [{| row_twitterId := tid'; row_score := v |}]) =
  scores_of tid ss ++ (if decide (tid' = tid) then [v] else []).
Proof.
  unfold scores_of. rewrite filter_app, fmap_app. f_equal.
  rewrite filter_cons; simpl. by destruct (decide (tid' = tid)).
Qed.

Lemma elem_of_scores_of (tid : string) (v : Z) (ss : list ScoreRow) :
  v ∈ scores_of tid ss ↔ {| row_twitterId := tid; row_score := v |} ∈ ss.
Proof.
  unfold scores_of. rewrite list_elem_of_fmap. split.
  - intros ([k x] & -> & [Hk Hin]%list_elem_of_filter). simpl in *. by subst.
  - intros Hin. eexists. split; [|apply list_elem_of_filter; split; [|done]];
      done.
Qed.

(** Appending a score to an identity's ledger raises its best score to the
    larger of the two. *)
Lemma bestScore_insert_same (tid : string) (v : Z) (ss : list ScoreRow) :
  bestScore tid (ss ++ [{| row_twitterId := tid; row_score := v |}]) =
  Some (match bestScore tid ss with Some a => Z.max a v | None => v end).
Proof.
  unfold bestScore. rewrite scores_of_snoc, decide_True by done.
  apply maximum_snoc.
Qed.

(* ===================================================================== *)
(** * Aggregation computes the maximum of every group *)
(* ===================================================================== *)

Section aggregation.
Context {P : Type}.
Implicit Types rows : list (string * P * Z).

Lemma group_max_snoc rows k p v :
  group_max (rows ++ [(k, p, v)]) = group_step k p v (group_max rows).
Proof. unfold group_max. by rewrite foldl_app. Qed.

Lemma values_of_snoc k rows k' p v :
  values_of k (rows ++ [(k', p, v)]) =
  values_of k rows ++ (if decide (k' = k) then [v] else []).
Proof.
  unfold values_of. rewrite omap_app. f_equal. simpl.
  by destruct (decide (k' = k)).
Qed.

Lemma group_step_lookup k p v (groups : gmap string (P * Z)) k' :
  group_step k p v groups !! k' =
  if decide (k = k')
  then Some (match groups !! k with
             | Some (p0, v0) => (p0, Z.max v0 v)
             | None => (p, v)
             end)
  else groups !! k'.
Proof.
  unfold group_step. destruct (groups !! k) as [[p0 v0]|] eqn:Hk;
    rewrite lookup_insert; by destruct (decide (k = k')).
Qed.

(** A group's value is the maximum of the values of its rows. *)
Lemma group_max_value k rows :
  snd <$> group_max rows !! k = maximum (values_of k rows).
Proof.
  induction rows as [|[[k' p] v] rows IH] using rev_ind; [done|].
  rewrite group_max_snoc, values_of_snoc, group_step_lookup.
  destruct (decide (k' = k)) as [->|Hne].
  - rewrite maximum_snoc, <-IH.
    by destruct (group_max rows !! k) as [[p0 v0]|].
  - by rewrite app_nil_r.
Qed.

(** A group's payload is the payload of one of its rows. *)
Lemma group_max_payload k rows p v :
  group_max rows !! k = Some (p, v) → ∃ v0, (k, p, v0) ∈ rows.
Proof.
  revert p v. induction rows as [|[[k' p'] v'] rows IH] using rev_ind;
    intros p v; [done|].
  rewrite group_max_snoc, group_step_lookup.
  destruct (decide (k' = k)) as [->|Hne].
  - destruct (group_max rows !! k) as [[p0 v0]|] eqn:Hk.
    + intros [= <- <-]. destruct (IH _ _ eq_refl) as [v1 ?].
      exists v1. apply elem_of_app. by left.
    + intros [= <- <-]. exists v'. apply elem_of_app. right. by left.
  - intros [v0 ?]%IH. exists v0. apply elem_of_app. by left.
Qed.

End aggregation.

(* ===================================================================== *)
(** * server.js: the ranking behind both queries *)
(* ===================================================================== *)

Lemma joined_values (us : gmap string Profile) (ss : list ScoreRow) (tid : string) :
  values_of tid
    (omap (λ s, u ← us !! row_twitterId s;
                Some (row_twitterId s, u, row_score s)) ss) =
  match us !! tid with
  | Some _ => scores_of tid ss
  | None => []
  end.
Proof.
  induction ss as [|[k v] ss IH].
  { simpl. by destruct (us !! tid). }
  unfold scores_of. rewrite filter_cons. cbn [omap list_omap row_twitterId row_score].
  destruct (us !! k) as [u|] eqn:Hk; cbn [mbind option_bind].
  - unfold values_of in *. cbn [omap list_omap].
    destruct (decide (k = tid)) as [->|].
    + rewrite IH, Hk. done.
    + rewrite IH. done.
  - rewrite IH. destruct (decide (k = tid)) as [->|]; [by rewrite Hk|done].
Qed.

Lemma elem_of_joined (us : gmap string Profile) (ss : list ScoreRow) k p v :
  (k, p, v) ∈ omap (λ s, u ← us !! row_twitterId s;
                         Some (row_twitterId s, u, row_score s)) ss →
  us !! k = Some p.
Proof.
  rewrite list_elem_of_omap. intros ([k' v'] & _ & Hs). simpl in Hs.
  destruct (us !! k') eqn:Hk; simpl in Hs; by simplify_eq.
Qed.

Section sqlite_ranking.
Context {E : Engine} {T : NumberText}.
Implicit Types (st : Store) (r : Ranked).

(** The aggregate rows: one per identity that has a profile and a score,
    carrying that identity's profile and best score. *)
Lemma sqlite_grouped_spec st r :
  r ∈ Sqlite.grouped st ↔
  users st !! rk_twitterId r = Some (rk_user r) ∧
  bestScore (rk_twitterId r) (scores st) = Some (highScore r).
Proof.
  unfold Sqlite.grouped. rewrite list_elem_of_fmap. split.
  - intros ([k [u v]] & -> & Hin%elem_of_map_to_list). simpl.
    pose proof (group_max_value k (Sqlite.joined st)) as Hv.
    rewrite Hin in Hv. simpl in Hv.
    apply group_max_payload in Hin as [v0 Hin%elem_of_joined].
    split; [done|]. unfold Sqlite.joined in Hv.
    rewrite joined_values, Hin in Hv. done.
  - destruct r as [k u v]. simpl. intros [Hu Hbest].
    pose proof (group_max_value k (Sqlite.joined st)) as Hv.
    unfold Sqlite.joined in Hv at 2. rewrite joined_values, Hu in Hv.
    unfold bestScore in Hbest. rewrite Hbest in Hv.
    destruct (group_max (Sqlite.joined st) !! k) as [[p' v']|] eqn:Hk;
      [|done].
    simpl in Hv. simplify_eq.
    pose proof Hk as [v0 Hp%elem_of_joined]%group_max_payload.
    simplify_eq. exists (k, (u, v)). split; [done|].
    by apply elem_of_map_to_list.
Qed.

Lemma sqlite_grouped_NoDup st : NoDup (rk_twitterId <$> Sqlite.grouped st).
Proof.
  unfold Sqlite.grouped. rewrite <-list_fmap_compose.
  erewrite list_fmap_ext; [apply (NoDup_fst_map_to_list (group_max (Sqlite.joined st)))|].
  by intros i [k [u v]] _.
Qed.

Lemma sqlite_ranking_perm st : Sqlite.ranking st ≡ₚ Sqlite.grouped st.
Proof. apply order_desc_perm. Qed.

Lemma sqlite_ranking_sorted st :
  StronglySorted (desc highScore) (Sqlite.ranking st).
Proof. apply order_desc_sorted. Qed.

Lemma sqlite_ranking_NoDup st : NoDup (rk_twitterId <$> Sqlite.ranking st).
Proof. rewrite sqlite_ranking_perm. apply sqlite_grouped_NoDup. Qed.

Lemma sqlite_ranking_elem st r :
  r ∈ Sqlite.ranking st ↔
  users st !! rk_twitterId r = Some (rk_user r) ∧
  bestScore (rk_twitterId r) (scores st) = Some (highScore r).
Proof. rewrite sqlite_ranking_perm. apply sqlite_grouped_spec. Qed.
End sqlite_ranking.

(* ===================================================================== *)
(** * server_mongo.js: the ranking behind both pipelines *)
(* ===================================================================== *)

Lemma scores_values (ss : list ScoreRow) (tid : string) :
  values_of tid ((λ s, (row_twitterId s, (), row_score s)) <$> ss) =
  scores_of tid ss.
Proof.
  induction ss as [|[k v] ss IH]; [done|].
  unfold scores_of, values_of in *. rewrite filter_cons. cbn.
  destruct (decide (k = tid)); cbn; by rewrite IH.
Qed.

Lemma scores_of_perm (tid : string) (ss ss' : list ScoreRow) :
  ss ≡ₚ ss' → scores_of tid ss ≡ₚ scores_of tid ss'.
Proof. intros H. unfold scores_of. by rewrite H. Qed.

Lemma maximum_perm (l l' : list Z) : l ≡ₚ l' → maximum l = maximum l'.
Proof.
  intros H. destruct (maximum l) as [v|] eqn:Hl.
  - symmetry. apply maximum_Some. apply maximum_Some in Hl as [Hin Hle].
    split; [by rewrite <-H|]. intros x Hx. apply Hle. by rewrite H.
  - apply maximum_nil_iff in Hl as ->. apply Permutation_nil in H as ->. done.
Qed.

Section mongo_ranking.
Context {E : Engine} {T : NumberText}.
Implicit Types (st : Store) (r : Ranked).

Lemma mongo_grouped_spec st k v :
  (k, v) ∈ Mongo.grouped st ↔ bestScore k (scores st) = Some v.
Proof.
  unfold Mongo.grouped. rewrite list_elem_of_fmap.
  set (rows := (λ s, (row_twitterId s, (), row_score s)) <$> Mongo.sorted_scores st).
  pose proof (group_max_value k rows) as Hv.
  unfold rows in Hv at 2. rewrite scores_values in Hv.
  unfold Mongo.sorted_scores in Hv.
  rewrite (maximum_perm _ _ (scores_of_perm k _ _ (order_desc_perm _ row_score (scores st)))) in Hv.
  fold (bestScore k (scores st)) in Hv.
  split.
  - intros ([k' [[] v']] & [= <- <-] & Hin%elem_of_map_to_list).
    by rewrite Hin in Hv.
  - intros Hb. rewrite Hb in Hv.
    destruct (group_max rows !! k) as [[[] v']|] eqn:Hk; [|done].
    simpl in Hv. simplify_eq. exists (k, ((), v)). split; [done|].
    by apply elem_of_map_to_list.
Qed.

Lemma mongo_grouped_NoDup st : NoDup (Mongo.grouped st).*1.
Proof.
  unfold Mongo.grouped. rewrite <-list_fmap_compose.
  erewrite list_fmap_ext; [apply NoDup_fst_map_to_list|].
  by intros i [k [[] v]] _.
Qed.

Lemma mongo_unwound_spec st r :
  r ∈ Mongo.unwound st ↔
  users st !! rk_twitterId r = Some (rk_user r) ∧
  bestScore (rk_twitterId r) (scores st) = Some (highScore r).
Proof.
  unfold Mongo.unwound. rewrite list_elem_of_omap. split.
  - intros ([k v] & Hin%mongo_grouped_spec & Hr).
    destruct (users st !! k) as [u|] eqn:Hu; simpl in Hr; [|done].
    by simplify_eq.
  - destruct r as [k u v]. simpl. intros [Hu Hb].
    exists (k, v). split; [by apply mongo_grouped_spec|]. by rewrite Hu.
Qed.

Lemma mongo_unwound_NoDup st : NoDup (rk_twitterId <$> Mongo.unwound st).
Proof.
  unfold Mongo.unwound. pose proof (mongo_grouped_NoDup st) as Hnd.
  induction (Mongo.grouped st) as [|[k v] l IH]; [constructor|].
  apply NoDup_cons in Hnd as [Hk Hnd]. cbn [omap list_omap].
  destruct (users st !! k) as [u|]; cbn; [|by apply IH].
  constructor; [|by apply IH].
  rewrite list_elem_of_fmap. intros (r & -> & Hr%list_elem_of_omap).
  destruct Hr as ([k' v'] & Hin & Hr).
  destruct (users st !! k'); simpl in Hr; [|done]. simplify_eq. simpl in Hk.
  apply Hk, list_elem_of_fmap. by exists (k', v').
Qed.
End mongo_ranking.

(* ===================================================================== *)
(** * Finding a row in a descending list *)
(* ===================================================================== *)

Lemma sorted_lookup {A} (R : relation A) (l : list A) i j x y :
  StronglySorted R l → l !! i = Some x → l !! j = Some y → (i < j)%nat → R x y.
Proof.
  intros Hs. revert i j. induction Hs as [|a l Hs IH Hall]; intros i j Hi Hj Hlt.
  { by rewrite lookup_nil in Hi. }
  destruct j as [|j]; [lia|]. destruct i as [|i]; simpl in *.
  - simplify_eq. rewrite Forall_forall in Hall.
    apply Hall. by eapply list_elem_of_lookup_2.
  - eapply IH; eauto. lia.
Qed.


Section find_sorted.
Context {A : Type} (key : A → Z) (P : A → Prop) `{!∀ x, Decision (P x)}.


Lemma list_find_take_Some (l : list A) (n i : nat) (r : A) :
  list_find P (take n l) = Some (i, r) ↔
  list_find P l = Some (i, r) ∧ (i < n)%nat.
Proof.
  rewrite !list_find_Some. split.
  - intros ([Hi Hn]%lookup_take_Some & HP & Hfirst). split; [|done].
    split_and!; [done..|]. intros j y Hj Hlt. apply (Hfirst j y); [|done].
    rewrite lookup_take_lt by lia. done.
  - intros [(Hi & HP & Hfirst) Hn]. split_and!; [|done|].
    + by rewrite lookup_take_lt.
    + intros j y [Hj _]%lookup_take_Some Hlt. by apply (Hfirst j y).
Qed.

End find_sorted.

Section detector_facts.
Context {R : Type} (row_username : R → string) (row_highScore : R → Z).

(** The guard of the announcement, read off the first row carrying the
    name. *)
Lemma placed_true (rows : list R) (name : string) (score : Z) :
  placed row_username row_highScore rows name score = true ↔
  ∃ i r, list_find (λ r, row_username r = name) rows = Some (i, r) ∧
         (i < 3)%nat ∧ row_highScore r = score.
Proof.
  unfold placed, rank, userRecord.
  destruct (list_find _ rows) as [[i r]|];
    cbn [fmap option_fmap option_map snd].
  - rewrite !andb_true_iff, !bool_decide_eq_true. split.
    + intros [[_ ?] ?]. exists i, r. split_and!; [done|lia|done].
    + intros (? & ? & [= <- <-] & ? & ?). split_and!; [lia|lia|done].
  - split; [by rewrite andb_false_r|]. by intros (? & ? & ? & _).
Qed.

End detector_facts.

(* ===================================================================== *)
(** * What the score route broadcasts *)
(* ===================================================================== *)

Section broadcasts.
Context {E : Engine} {T : NumberText}.
Implicit Types (st : Store) (u : SessionUser) (f : Faults).

Lemma sqlite_emitted f u score st :
  emitted (trace (run (Sqlite.post_score f
                         {| session := Some u; body_score := score |}) st)) =
  if score_insert_fails f || top3_query_fails f then []
  else
    let rows := Sqlite.checkQuery (insert_score (twitterId u) score st) in
    let name := username (session_profile u) in
    if placed (username ∘ rk_user) highScore rows name score
    then [system_message name (rank (username ∘ rk_user) rows name) score]
    else [].
Proof.
  unfold_handler.
  destruct (score_insert_fails f); [done|].
  destruct (top3_query_fails f); [done|]. cbn.
  destruct (placed _ _ _ _ _); [|done].
  destruct (message_insert_fails f); done.
Qed.

Lemma mongo_emitted f u score st :
  emitted (trace (run (Mongo.post_score f
                         {| session := Some u; body_score := score |}) st)) =
  if score_insert_fails f || top3_query_fails f then []
  else
    let rows := Mongo.top3 (insert_score (twitterId u) score st) in
    let name := username (session_profile u) in
    if placed (username ∘ rk_user) highScore rows name score
    then if message_insert_fails f then []
         else [system_message name (rank (username ∘ rk_user) rows name) score]
    else [].
Proof.
  unfold_handler.
  destruct (score_insert_fails f); [done|].
  destruct (top3_query_fails f); [done|]. cbn.
  destruct (placed _ _ _ _ _); [|done].
  destruct (message_insert_fails f); done.
Qed.

Lemma supabase_emitted f u score st :
  emitted (trace (run (Supabase.post_score f
                         {| session := Some u; body_score := score |}) st)) =
  if score_insert_fails f || top3_query_fails f then []
  else
    match Supabase.top3 (insert_score (twitterId u) score st) with
    | None => []
    | Some rows =>
      let name := username (session_profile u) in
      if placed fst snd rows name score
      then [system_message name (rank fst rows name) score]
      else []
    end.
Proof.
  unfold_handler. unfold Supabase.top3, Supabase.uniqueScores.
  destruct (score_insert_fails f); [done|].
  destruct (top3_query_fails f); [done|]. cbn.
  destruct (Supabase.deduplicate _ _ _) as [us|]; [|done]. cbn.
  destruct (placed _ _ _ _ _); [|done].
  destruct (message_insert_fails f); done.
Qed.
End broadcasts.

(* ===================================================================== *)
(** * Keeping the first row of every key *)
(* ===================================================================== *)

Section first_seen_facts.
Context {A : Type} (key : A → string).
Implicit Types (l : list A) (seen : gset string).

Lemma first_seen_elem l seen x :
  x ∈ first_seen key l seen → x ∈ l ∧ key x ∉ seen.
Proof.
  revert seen. induction l as [|a l IH]; intros seen; simpl.
  { by intros ?%elem_of_nil. }
  destruct (decide (key a ∈ seen)).
  - intros [??]%IH. split; [by right|done].
  - intros [->|[? Hx]%IH]%elem_of_cons; [split; [by left|done]|].
    split; [by right|]. set_solver.
Qed.

Lemma first_seen_NoDup l seen : NoDup (key <$> first_seen key l seen).
Proof.
  revert seen. induction l as [|a l IH]; intros seen; simpl; [constructor|].
  destruct (decide (key a ∈ seen)); [apply IH|].
  rewrite fmap_cons. constructor; [|apply IH].
  rewrite list_elem_of_fmap. intros (y & Hy & [_ Hn]%first_seen_elem).
  set_solver.
Qed.

Lemma first_seen_covers l seen x :
  x ∈ l → key x ∉ seen → ∃ y, y ∈ first_seen key l seen ∧ key y = key x.
Proof.
  revert seen. induction l as [|a l IH]; intros seen; simpl.
  { by intros ?%elem_of_nil. }
  intros [->|Hx]%elem_of_cons Hn.
  - rewrite decide_False by done. exists a. split; [by left|done].
  - destruct (decide (key a ∈ seen)); [by apply IH|].
    destruct (decide (key x = key a)) as [Heq|Hne].
    + exists a. split; [by left|done].
    + destruct (IH ({[key a]} ∪ seen) Hx) as (y & ? & ?); [set_solver|].
      exists y. split; [by right|done].
Qed.

Lemma first_seen_sorted (R : relation A) l seen :
  StronglySorted R l → StronglySorted R (first_seen key l seen).
Proof.
  intros Hs. revert seen. induction Hs as [|a l Hs IH Hall]; intros seen; simpl.
  { constructor. }
  destruct (decide (key a ∈ seen)); [apply IH|].
  constructor; [apply IH|].
  rewrite Forall_forall in *. intros x [Hx _]%first_seen_elem. by apply Hall.
Qed.

(** In a sorted list the kept row of a key precedes every row of that
    key. *)
Lemma first_seen_first (R : relation A) `{!Reflexive R} l seen x y :
  StronglySorted R l →
  x ∈ first_seen key l seen → y ∈ l → key y = key x → R x y.
Proof.
  intros Hs. revert seen. induction Hs as [|a l Hs IH Hall]; intros seen; simpl.
  { by intros ?%elem_of_nil. }
  rewrite Forall_forall in Hall.
  destruct (decide (key a ∈ seen)) as [Hin|Hn].
  - intros Hx [->|Hy]%elem_of_cons Hk; [|by eapply IH].
    apply first_seen_elem in Hx as [_ Hx]. by rewrite <-Hk in Hx.
  - intros [->|Hx]%elem_of_cons [->|Hy]%elem_of_cons Hk.
    + done.
    + by apply Hall.
    + apply first_seen_elem in Hx as [_ Hx]. rewrite <-Hk in Hx. set_solver.
    + by eapply IH.
Qed.
End first_seen_facts.

Lemma named_cons e data :
  named (e :: data) =
  p ← Supabase.entry_users e; nd ← named data;
  Some ((p, Supabase.entry_score e) :: nd).
Proof.
  unfold named. cbn. destruct (Supabase.entry_users e); cbn; [|done].
  by destruct (mapM _ data).
Qed.

Lemma deduplicate_first_seen data seen uniqueScores :
  Supabase.deduplicate data seen uniqueScores =
  nd ← named data;
  Some (uniqueScores ++
        ((λ '(p, v), (username p, v)) <$>
           first_seen (username ∘ fst) nd seen)).
Proof.
  revert seen uniqueScores. induction data as [|e data IH];
    intros seen us.
  { cbn. by rewrite app_nil_r. }
  rewrite named_cons. cbn [Supabase.deduplicate].
  destruct (Supabase.entry_users e) as [p|]; cbn; [|done].
  destruct (decide (username p ∈ seen)) as [Hin|Hn].
  - rewrite IH. destruct (named data) as [nd|]; cbn; [|done].
    by rewrite decide_True.
  - rewrite IH. destruct (named data) as [nd|]; cbn; [|done].
    rewrite decide_False by done. by rewrite <-app_assoc.
Qed.

Lemma forEach_entry_first_seen data userMap :
  Supabase.forEach_entry data userMap =
  nd ← named data;
  Some (userMap ++
        ((λ '(p, v), (username p, Supabase.row_of p v)) <$>
           first_seen (username ∘ fst) nd (list_to_set userMap.*1))).
Proof.
  revert userMap. induction data as [|e data IH]; intros um.
  { cbn. by rewrite app_nil_r. }
  rewrite named_cons. cbn [Supabase.forEach_entry].
  destruct (Supabase.entry_users e) as [p|]; cbn; [|done].
  destruct (decide (username p ∈ um.*1)) as [Hin|Hn].
  - rewrite IH. destruct (named data) as [nd|]; cbn; [|done].
    rewrite decide_True by (by apply elem_of_list_to_set). done.
  - rewrite IH. destruct (named data) as [nd|]; cbn; [|done].
    rewrite decide_False by (by rewrite elem_of_list_to_set).
    rewrite fmap_app, list_to_set_app_L. cbn.
    rewrite <-app_assoc. cbn.
    replace (list_to_set um.*1 ∪ ({[username p]} ∪ ∅) : gset string)
      with ({[username p]} ∪ list_to_set um.*1 : gset string) by set_solver.
    done.
Qed.

Lemma named_Forall2 data nd :
  named data = Some nd ↔
  Forall2 (λ e x, Supabase.entry_users e = Some x.1 ∧
                  Supabase.entry_score e = x.2) data nd.
Proof.
  unfold named. rewrite mapM_Some. split; intros H;
    (eapply Forall2_impl; [exact H|]); intros e [p v]; cbn.
  - destruct (Supabase.entry_users e); cbn; [|done]. by intros [= -> ->].
  - by intros [-> ->].
Qed.

Lemma named_elem data nd p v :
  named data = Some nd →
  (p, v) ∈ nd ↔
  ∃ e, e ∈ data ∧ Supabase.entry_users e = Some p ∧ Supabase.entry_score e = v.
Proof.
  intros H%named_Forall2. induction H as [|e [p' v'] data nd [Hu Hv] H IH].
  { split; [by intros ?%elem_of_nil|by intros (? & ?%elem_of_nil & _)]. }
  cbn in Hu, Hv. rewrite elem_of_cons, IH. split.
  - intros [[= -> ->]|(e' & ? & ?)].
    + exists e. split; [by left|done].
    + exists e'. split; [by right|done].
  - intros (e' & [->|?]%elem_of_cons & Hu' & Hv').
    + left. congruence.
    + right. by exists e'.
Qed.

Lemma named_sorted data nd :
  named data = Some nd →
  StronglySorted (desc Supabase.entry_score) data →
  StronglySorted (desc snd) nd.
Proof.
  intros H%named_Forall2. induction H as [|e [p v] data nd [Hu Hv] H IH].
  { constructor. }
  intros [Hall Hs]%StronglySorted_cons. constructor; [by apply IH|].
  rewrite Forall_forall in Hall. apply Forall_forall. intros [p' v'] Hin.
  destruct (proj1 (named_elem data nd p' v' (proj2 (named_Forall2 _ _) H)) Hin)
    as (e' & He' & _ & <-).
  specialize (Hall e' He'). unfold desc in *. cbn in *. lia.
Qed.

Lemma named_is_Some data :
  (∀ e, e ∈ data → is_Some (Supabase.entry_users e)) → is_Some (named data).
Proof.
  induction data as [|e data IH]; intros H; [by eexists|].
  rewrite named_cons. destruct (H e) as [p ->]; [by left|].
  destruct IH as [nd ->]; [intros; apply H; by right|]. by eexists.
Qed.

Section supabase_rows.
Context {E : Engine} {T : NumberText}.
Implicit Types (st : Store).

Lemma select_scores_elem st e :
  e ∈ Supabase.select_scores st ↔
  ∃ s, s ∈ scores st ∧ e = {| Supabase.entry_score := row_score s;
                              Supabase.entry_users := users st !! row_twitterId s |}.
Proof.
  unfold Supabase.select_scores. rewrite order_desc_perm, list_elem_of_fmap.
  naive_solver.
Qed.

(** The rows the Supabase routes read, when no score lacks a user: the
    scores with their owners' profiles, in descending order of score. *)
Lemma select_scores_named st nd p v :
  named (Supabase.select_scores st) = Some nd →
  (p, v) ∈ nd ↔
  ∃ s, s ∈ scores st ∧ users st !! row_twitterId s = Some p ∧ row_score s = v.
Proof.
  intros H. rewrite (named_elem _ _ _ _ H). split.
  - intros (e & (s & Hs & ->)%select_scores_elem & Hu & Hv). by exists s.
  - intros (s & Hs & Hu & Hv). eexists. split.
    + apply select_scores_elem. by exists s.
    + done.
Qed.

Lemma select_scores_named_sorted st nd :
  named (Supabase.select_scores st) = Some nd → StronglySorted (desc snd) nd.
Proof. intros H. eapply named_sorted; [done|]. apply order_desc_sorted. Qed.

Lemma select_scores_covered st :
  ledger_covered st → is_Some (named (Supabase.select_scores st)).
Proof.
  intros Hc. apply named_is_Some. unfold ledger_covered in Hc.
  rewrite Forall_forall in Hc.
  intros e (s & Hs & ->)%select_scores_elem. cbn. by apply Hc.
Qed.

Lemma supabase_top3_Some st rows :
  Supabase.top3 st = Some rows ↔
  ∃ nd, named (Supabase.select_scores st) = Some nd ∧
        rows = take 3 ((λ '(p, v), (username p, v)) <$>
                         first_seen (username ∘ fst) nd ∅).
Proof.
  unfold Supabase.top3, Supabase.uniqueScores.
  rewrite deduplicate_first_seen.
  destruct (named _) as [nd|]; cbn; [|naive_solver].
  split; [intros [= <-]; by exists nd|]. by intros (? & [= <-] & ->).
Qed.
End supabase_rows.

(* ===================================================================== *)
(** * A lower score is never announced *)
(* ===================================================================== *)

Section below_best.
Context {E : Engine} {T : NumberText}.
Implicit Types (st : Store) (u : SessionUser).

Lemma sqlite_ranking_ranks st : ranks st (Sqlite.ranking st).
Proof.
  split_and!; [apply sqlite_ranking_NoDup| |apply sqlite_ranking_sorted].
  intros r. apply sqlite_ranking_elem.
Qed.

Lemma mongo_ranking_ranks st : ranks st (Mongo.ranking st).
Proof.
  unfold Mongo.ranking. split_and!.
  - rewrite order_desc_perm. apply mongo_unwound_NoDup.
  - intros r. rewrite order_desc_perm. apply mongo_unwound_spec.
  - apply order_desc_sorted.
Qed.

Lemma session_current_record st u :
  session_current st u →
  ∃ p, users st !! twitterId u = Some p ∧
       username p = username (session_profile u).
Proof.
  unfold session_current.
  destruct (users st !! twitterId u) as [p|]; [|done].
  intros [= Hname]. eauto.
Qed.

Lemma registered_current st u : registered st u → session_current st u.
Proof. unfold registered, session_current. by intros ->. Qed.



End below_best.




(* ===================================================================== *)
(** * Rejection of unauthenticated submissions *)
(* ===================================================================== *)

(** C7. A score submission whose request carries no authenticated user is
    answered [NotAuthenticated] and does nothing else: the store is
    unchanged (no score is appended) and the trace holds no insert and no
    broadcast; in each of the three servers, whichever storage calls would
    fail. *)
Theorem unauthenticated_no_effect (E : Engine) (T : NumberText)
    (f : Faults) (st : Store)
    (score : Z) :
  let req := {| session := None; body_score := score |} in
  run (Sqlite.post_score f req) st = (Ret (), st, [Respond NotAuthenticated]) ∧
  run (Mongo.post_score f req) st = (Ret (), st, [Respond NotAuthenticated]) ∧
  run (Supabase.post_score f req) st = (Ret (), st, [Respond NotAuthenticated]).
Proof. intros req. split_and!; reflexivity. Qed.

(* ===================================================================== *)
(** * Placement detection, by identity *)
(* ===================================================================== *)

Section by_identity.
Context {E : Engine} {T : NumberText}.
Implicit Types (st : Store) (u : SessionUser) (l : list Ranked).






(** In the Supabase rows the entry of a username that only the submitter
    carries holds the submitter's best score. *)
Lemma supabase_row_is_best st rows u i n v :
  Supabase.top3 st = Some rows → session_current st u → username_unshared st u →
  list_find (λ r, fst r = username (session_profile u)) rows = Some (i, (n, v)) →
  bestScore (twitterId u) (scores st) = Some v.
Proof.
  intros (nd & Hnd & ->)%supabase_top3_Some
    (own & Hown_rec & Hname)%session_current_record Hun
    ([Hi _]%lookup_take_Some & Hn & _)%list_find_Some.
  cbn in Hn. subst n.
  apply list_elem_of_lookup_2, list_elem_of_fmap in Hi as ([p v'] & [= Hp ->] & Hin).
  pose proof Hin as [Hnd_in _]%first_seen_elem.
  apply (select_scores_named st nd _ _ Hnd) in Hnd_in as ([tid x] & Hs & Hu & <-).
  cbn in Hu. assert (tid = twitterId u) as -> by (by eapply Hun).
  apply maximum_Some. split; [by apply elem_of_scores_of|].
  intros y Hy%elem_of_scores_of.
  assert ((own, y) ∈ nd) as Hown.
  { apply (select_scores_named st nd _ _ Hnd). eexists. split; [exact Hy|].
    done. }
  pose proof (first_seen_first (username ∘ fst) (desc snd) nd ∅ _ _
                (select_scores_named_sorted st nd Hnd) Hin Hown) as Hle.
  unfold desc in Hle. cbn in Hle. apply Hle. congruence.
Qed.
End by_identity.

Section stores.
Context {E : Engine} {T : NumberText}.
Implicit Types (st : Store) (u : SessionUser) (f : Faults).



End stores.




(* ===================================================================== *)
(** * Resubmitting the best score *)
(* ===================================================================== *)




(* ===================================================================== *)
(** * The three servers compared *)
(* ===================================================================== *)

Section comparison.
Context {E : Engine} {T : NumberText}.
Implicit Types (st : Store) (l : list Ranked) (nd : list (Profile * Z)).

(** The documents MongoDB sorts for the leaderboard are the projections of
    a ranking. *)
Lemma mongo_projected_ranks st :
  ∃ l, ranks st l ∧
       Mongo.projected st = (λ r, (rk_twitterId r, project r)) <$> l.
Proof.
  unfold Mongo.projected.
  set (f := λ r : Ranked, (rk_twitterId r, project r)).
  pose proof (order_desc_perm _ (lb_highScore ∘ snd) (f <$> Mongo.unwound st)) as Hp.
  pose proof (order_desc_sorted _ (lb_highScore ∘ snd) (f <$> Mongo.unwound st)) as Hs.
  apply Permutation_map_inv in Hp as (l & Heq & Hperm).
  exists l. split; [|exact Heq].
  assert (Mongo.unwound st ≡ₚ l) as Hperm' by exact Hperm.
  split_and!.
  - rewrite <-Hperm'. apply mongo_unwound_NoDup.
  - intros r. rewrite <-Hperm'. apply mongo_unwound_spec.
  - rewrite Heq in Hs.
    clear -Hs. induction l as [|a l IH]; [constructor|].
    cbn in Hs. apply StronglySorted_cons in Hs as [Hall Hs].
    constructor; [by apply IH|].
    rewrite Forall_forall in Hall. apply Forall_forall. intros r Hr.
    apply (Hall (f r)). apply list_elem_of_In, in_map, list_elem_of_In, Hr.
Qed.

End comparison.

Lemma sorted_fmap_desc {A B} (f : A → B) (k1 : A → Z) (k2 : B → Z) (l : list A) :
  (∀ x, k2 (f x) = k1 x) →
  StronglySorted (desc k1) l → StronglySorted (desc k2) (f <$> l).
Proof.
  intros Hk Hs. induction Hs as [|a l Hs IH Hall]; [constructor|].
  cbn. constructor; [done|]. rewrite Forall_forall in Hall.
  apply Forall_forall. intros x (r & -> & Hr)%list_elem_of_fmap.
  unfold desc. rewrite !Hk. by apply Hall.
Qed.

Section supabase_maps.
Context (E3 : Engine).
Implicit Types (st : Store).

Lemma supabase_userMap_values st nd :
  named (Supabase.select_scores (E:=E3) st) = Some nd →
  ∃ um, Supabase.userMap (E:=E3) st = Some um ∧
        um.*2 = (λ x, Supabase.row_of x.1 x.2) <$>
                  first_seen (username ∘ fst) nd ∅.
Proof.
  intros Hnd. unfold Supabase.userMap. rewrite forEach_entry_first_seen, Hnd.
  cbn. eexists. split; [done|].
  rewrite <-list_fmap_compose. apply list_fmap_ext. by intros i [p v] _.
Qed.

Lemma supabase_uniqueScores_rows st nd :
  named (Supabase.select_scores (E:=E3) st) = Some nd →
  Supabase.uniqueScores (E:=E3) st =
  Some ((λ x, (username x.1, x.2)) <$> first_seen (username ∘ fst) nd ∅).
Proof.
  intros Hnd. unfold Supabase.uniqueScores.
  rewrite deduplicate_first_seen, Hnd. cbn. f_equal.
  apply list_fmap_ext. by intros i [p v] _.
Qed.

End supabase_maps.

(* ===================================================================== *)
(** * Replay on connect *)
(* ===================================================================== *)

Lemma next_id_above (ms : list MessageRow) (row : MessageRow) :
  row ∈ ms → msg_id row < next_id ms.
Proof.
  unfold next_id. induction ms as [|a ms IH]; [by intros ?%elem_of_nil|].
  cbn. intros [->|Hin]%elem_of_cons; [lia|]. specialize (IH Hin). lia.
Qed.


Lemma logged_snoc (ms : list ChatMessage) (m : ChatMessage) (st : Store) :
  logged (ms ++ [m]) st = insert_message m (logged ms st).
Proof. unfold logged. by rewrite foldl_app. Qed.

Section log_shape.
Context (us : gmap string Profile) (ss : list ScoreRow).

(** Posting to an empty table: the rows carry the posted messages in
    order, under strictly increasing keys. *)
Lemma logged_payloads (ms : list ChatMessage) :
  payload <$> messages (logged ms (fresh us ss)) = ms.
Proof.
  induction ms as [|m ms IH] using rev_ind; [done|].
  rewrite logged_snoc. cbn. rewrite fmap_app, IH. cbn. by destruct m.
Qed.

Lemma logged_increasing (ms : list ChatMessage) :
  StronglySorted (λ a b, msg_id a < msg_id b)
    (messages (logged ms (fresh us ss))).
Proof.
  induction ms as [|m ms IH] using rev_ind; [constructor|].
  rewrite logged_snoc. cbn. apply StronglySorted_app_2; [|done|].
  - intros a b Ha ->%list_elem_of_singleton. cbn. by apply next_id_above.
  - repeat constructor.
Qed.
End log_shape.

Lemma increasing_reverse (ms : list MessageRow) :
  StronglySorted (λ a b, msg_id a < msg_id b) ms →
  StronglySorted (desc msg_id) (reverse ms).
Proof.
  induction 1 as [|a ms Hs IH Hall]; [constructor|].
  rewrite reverse_cons. apply StronglySorted_app_2; [|done|repeat constructor].
  intros x y Hx ->%list_elem_of_singleton. rewrite elem_of_reverse in Hx.
  rewrite Forall_forall in Hall. specialize (Hall x Hx). unfold desc. lia.
Qed.

Lemma increasing_distinct (ms : list MessageRow) (a b : MessageRow) :
  StronglySorted (λ a b, msg_id a < msg_id b) ms →
  a ∈ ms → b ∈ ms → msg_id a = msg_id b → a = b.
Proof.
  intros Hs [i Hi]%list_elem_of_lookup [j Hj]%list_elem_of_lookup Heq.
  destruct (decide (i = j)) as [->|Hne]; [congruence|].
  destruct (decide (i < j)%nat).
  - pose proof (sorted_lookup _ ms i j a b Hs Hi Hj). lia.
  - pose proof (sorted_lookup _ ms j i b a Hs Hj Hi). lia.
Qed.

(** On a table whose keys increase with insertion, [ORDER BY id DESC] is
    the reverse of the insertion order, whatever the engine. *)
Lemma order_desc_increasing (E : Engine) (ms : list MessageRow) :
  StronglySorted (λ a b, msg_id a < msg_id b) ms →
  order_desc msg_id ms = reverse ms.
Proof.
  intros Hs. apply (StronglySorted_unique_strong (desc msg_id)).
  - intros a b Ha Hb Hab Hba. unfold desc in *.
    rewrite order_desc_perm in Ha. rewrite elem_of_reverse in Hb.
    apply (increasing_distinct ms); [done..|lia].
  - apply order_desc_sorted.
  - by apply increasing_reverse.
  - by rewrite order_desc_perm, reverse_Permutation.
Qed.

Lemma replay_last (E : Engine) (us : gmap string Profile)
    (ss : list ScoreRow) (ms : list ChatMessage) :
  payload <$> reverse (take 50 (order_desc msg_id
                                  (messages (logged ms (fresh us ss))))) =
  last_fifty ms.
Proof.
  unfold last_fifty.
  rewrite (order_desc_increasing E) by apply logged_increasing.
  rewrite reverse_take, reverse_involutive, length_reverse, fmap_drop.
  rewrite logged_payloads.
  replace (length (messages (logged ms (fresh us ss)))) with (length ms); [done|].
  by rewrite <-(logged_payloads us ss ms) at 1; rewrite length_fmap.
Qed.

(** C8, as amended.  Whatever has been posted to the chat log, in whatever
    order the engine breaks ties, the replay on connect of the SQLite and
    MongoDB servers holds at most 50 messages, in the order they were
    posted, none in between left out: it is an end segment of what was
    posted.  When the history query is answered (in server_mongo.js: and
    [db] is set when the client connects) it is the last 50 posted
    messages, all of them when there are at most 50, so a log of exactly
    three messages is replayed as those three, oldest first.  When the
    query fails, or [db] is not set, nothing is replayed. *)
Theorem replay_most_recent_fifty (E : Engine) (us : gmap string Profile)
    (ss : list ScoreRow) (ms : list ChatMessage) :
  let st := logged ms (fresh us ss) in
  (Sqlite.replay Answered st = last_fifty ms ∧
   Mongo.replay true Answered st = last_fifty ms) ∧
  (∀ q db_set,
     ((length (Sqlite.replay q st) ≤ 50)%nat ∧
      Sqlite.replay q st `suffix_of` ms) ∧
     ((length (Mongo.replay db_set q st) ≤ 50)%nat ∧
      Mongo.replay db_set q st `suffix_of` ms)) ∧
  (∀ m1 m2 m3, ms = [m1; m2; m3] →
     Sqlite.replay Answered st = [m1; m2; m3] ∧
     Mongo.replay true Answered st = [m1; m2; m3]) ∧
  (Sqlite.replay Failed st = [] ∧
   Mongo.replay true Failed st = [] ∧
   ∀ q, Mongo.replay false q st = []).
Proof.
  intros st.
  assert (Sqlite.replay Answered st = last_fifty ms) as Hs by apply replay_last.
  assert (Mongo.replay true Answered st = last_fifty ms) as Hm by apply replay_last.
  assert ((length (last_fifty ms) ≤ 50)%nat ∧ last_fifty ms `suffix_of` ms)
    as Hlast.
  { unfold last_fifty. rewrite length_drop. split; [lia|apply suffix_drop]. }
  assert ((length (@nil ChatMessage) ≤ 50)%nat ∧ [] `suffix_of` ms) as Hnil
    by (split; [cbn; lia|apply suffix_nil]).
  split_and!; [done|done| | |done|done|by intros []].
  - intros [] db_set; split.
    + by rewrite Hs.
    + destruct db_set; [by rewrite Hm|exact Hnil].
    + exact Hnil.
    + destruct db_set; exact Hnil.
  - intros m1 m2 m3 ?. rewrite Hs, Hm. by subst ms.
Qed.

(** C8, counterexample.  The log holds three messages.  A client connects
    to the SQLite server and its history query fails; a client connects to
    the MongoDB server before [connectDB] has resolved, or its query is
    rejected: nothing is replayed to them. *)
Lemma failed_history_replays_nothing :
  let m1 := {| user := "alice"; text := "one" |} in
  let m2 := {| user := "bob"; text := "two" |} in
  let m3 := {| user := "alice"; text := "three" |} in
  let st := logged [m1; m2; m3] empty_store in
  payload <$> messages st = [m1; m2; m3] ∧
  Sqlite.replay (E:=merge_engine) Failed st = [] ∧
  Mongo.replay (E:=merge_engine) false Answered st = [] ∧
  Mongo.replay (E:=merge_engine) true Failed st = [] ∧
  Sqlite.replay (E:=merge_engine) Answered st = [m1; m2; m3] ∧
  Mongo.replay (E:=merge_engine) true Answered st = [m1; m2; m3].
Proof. vm_compute. repeat split. Qed.

(* ===================================================================== *)
(** * The Supabase leaderboard is keyed by username *)
(* ===================================================================== *)

(** Rows with pairwise distinct keys come back in one order, whatever the
    engine. *)
Lemma order_desc_distinct (E : Engine) {A} (key : A → Z) (l : list A) :
  NoDup (key <$> l) → order_desc key l = merge_sort (desc key) l.
Proof.
  intros Hnd. apply (StronglySorted_unique_strong (desc key)).
  - intros a b Ha Hb Hab Hba. unfold desc in *.
    rewrite order_desc_perm in Ha. rewrite merge_sort_Permutation in Hb.
    apply list_elem_of_lookup in Ha as [i Hi], Hb as [j Hj].
    assert ((key <$> l) !! i = Some (key a)) as Hi' by (by rewrite list_lookup_fmap, Hi).
    assert ((key <$> l) !! j = Some (key b)) as Hj' by (by rewrite list_lookup_fmap, Hj).
    assert (key a = key b) as Heq by lia. rewrite Heq in Hi'.
    pose proof (NoDup_lookup _ _ _ _ Hnd Hi' Hj'). congruence.
  - apply order_desc_sorted.
  - apply StronglySorted_merge_sort; apply _.
  - by rewrite order_desc_perm, merge_sort_Permutation.
Qed.

(** C1, at the failing input.  [alice] (best score 70) and [alice2] (best
    score 50) are two identities of the directory with scores in the
    ledger.  Whatever the engine, the SQLite leaderboard lists each of
    them once with its best score, and the Supabase leaderboard lists one
    entry only: [alice2] does not appear. *)
Theorem supabase_leaderboard_drops_identity (E : Engine) :
  users shared_name_store2 !! "1001" = Some (profile_of "alice") ∧
  users shared_name_store2 !! "1003" = Some (profile_of "alice") ∧
  bestScore "1001" (scores shared_name_store2) = Some 70 ∧
  bestScore "1003" (scores shared_name_store2) = Some 50 ∧
  Sqlite.leaderboard shared_name_store2 =
    [ Supabase.row_of (profile_of "alice") 70;
      Supabase.row_of (profile_of "alice") 50 ] ∧
  Supabase.leaderboard Answered shared_name_store2 =
    Some [ Supabase.row_of (profile_of "alice") 70 ].
Proof.
  split; [reflexivity|]. split; [reflexivity|]. split; [reflexivity|].
  split; [reflexivity|]. split.
  - unfold Sqlite.leaderboard, Sqlite.ranking.
    rewrite (order_desc_distinct E)
      by (apply (bool_decide_unpack _); vm_compute; exact I).
    vm_compute. reflexivity.
  - unfold Supabase.leaderboard, Supabase.userMap, Supabase.select_scores.
    rewrite (order_desc_distinct E)
      by (apply (bool_decide_unpack _); vm_compute; exact I).
    vm_compute. reflexivity.
Qed.

(** C9, at the failing input.  The three servers hold the same ledger and
    the same profiles: [alice] (best score 70) and [alice2] (best score
    50), two identities that carry the same username.  Whatever the
    engines, the SQLite and MongoDB leaderboards list both identities,
    each with its best score; the Supabase leaderboard, keyed by username,
    lists one entry and drops [alice2]. *)
Theorem shared_username_merges_entries (E1 E2 E3 : Engine) :
  users shared_name_store2 !! "1001" = Some (profile_of "alice") ∧
  users shared_name_store2 !! "1003" = Some (profile_of "alice") ∧
  bestScore "1001" (scores shared_name_store2) = Some 70 ∧
  bestScore "1003" (scores shared_name_store2) = Some 50 ∧
  Sqlite.leaderboard (E:=E1) shared_name_store2 =
    [ Supabase.row_of (profile_of "alice") 70;
      Supabase.row_of (profile_of "alice") 50 ] ∧
  Mongo.leaderboard (E:=E2) shared_name_store2 =
    [ ("1001", Supabase.row_of (profile_of "alice") 70);
      ("1003", Supabase.row_of (profile_of "alice") 50) ] ∧
  Supabase.leaderboard (E:=E3) Answered shared_name_store2 =
    Some [ Supabase.row_of (profile_of "alice") 70 ].
Proof.
  split; [reflexivity|]. split; [reflexivity|]. split; [reflexivity|].
  split; [reflexivity|]. split; [|split].
  - unfold Sqlite.leaderboard, Sqlite.ranking.
    rewrite (order_desc_distinct E1)
      by (apply (bool_decide_unpack _); vm_compute; exact I).
    vm_compute. reflexivity.
  - unfold Mongo.leaderboard, Mongo.projected, Mongo.unwound, Mongo.grouped,
      Mongo.sorted_scores.
    rewrite (order_desc_distinct E2 row_score)
      by (apply (bool_decide_unpack _); vm_compute; exact I).
    rewrite (order_desc_distinct E2)
      by (apply (bool_decide_unpack _); vm_compute; exact I).
    vm_compute. reflexivity.
  - unfold Supabase.leaderboard, Supabase.userMap, Supabase.select_scores.
    rewrite (order_desc_distinct E3)
      by (apply (bool_decide_unpack _); vm_compute; exact I).
    vm_compute. reflexivity.
Qed.

(* ===================================================================== *)
(** * Failures after the score is recorded *)
(* ===================================================================== *)

(** C3, at the failing input.  When the score has been appended and the
    recomputation of the leaderboard fails, the MongoDB and Supabase
    servers answer the submitter with a server error, though the score is
    in the ledger; the SQLite server answers [Success]. *)
Theorem recompute_failure_surfaces (E : Engine) (T : NumberText) (st : Store)
    (u : SessionUser) (score : Z) :
  let recorded := scores st ++ [{| row_twitterId := twitterId u;
                                  row_score := score |}] in
  let mongo := run (Mongo.post_score recompute_fails (submit u score)) st in
  let supabase := run (Supabase.post_score recompute_fails (submit u score)) st in
  let sqlite := run (Sqlite.post_score recompute_fails (submit u score)) st in
  (responses (trace mongo) = [ServerError] ∧
   scores (final_store mongo) = recorded) ∧
  (responses (trace supabase) = [ServerError] ∧
   scores (final_store supabase) = recorded) ∧
  (responses (trace sqlite) = [Success] ∧
   scores (final_store sqlite) = recorded).
Proof. intros. split_and!; reflexivity. Qed.

(** C5, at the failing input.  When the insert of the announcement into
    the chat log fails, the Supabase and SQLite servers still broadcast
    the announcement: it is published and the log does not hold it. *)
Theorem unlogged_announcement_published (E : Engine) (T : NumberText) (st : Store)
    (u : SessionUser) (score : Z) :
  let st' := insert_score (twitterId u) score st in
  let name := username (session_profile u) in
  let supabase := run (Supabase.post_score logging_fails (submit u score)) st in
  let sqlite := run (Sqlite.post_score logging_fails (submit u score)) st in
  (∀ rows, Supabase.top3 st' = Some rows →
     placed fst snd rows name score = true →
     let m := system_message name (rank fst rows name) score in
     trace supabase =
       [InsertScore (twitterId u) score true; InsertMessage m false; Emit m;
        Respond Success] ∧
     messages (final_store supabase) = messages st) ∧
  (placed (username ∘ rk_user) highScore (Sqlite.checkQuery st') name score = true →
     let m := system_message name
                (rank (username ∘ rk_user) (Sqlite.checkQuery st') name) score in
     trace sqlite =
       [InsertScore (twitterId u) score true; Respond Success;
        InsertMessage m false; Emit m] ∧
     messages (final_store sqlite) = messages st).
Proof.
  intros st' name supabase sqlite. split.
  - intros rows Hrows Hp m. unfold supabase, m. unfold_handler. cbn.
    unfold Supabase.top3, Supabase.uniqueScores in Hrows. fold st'.
    destruct (Supabase.deduplicate _ _ _) as [us|]; [|done].
    cbn in Hrows. injection Hrows as <-. cbn. fold name. rewrite Hp. done.
  - intros Hp m. unfold sqlite, m. unfold_handler. cbn. fold st' name.
    rewrite Hp. done.
Qed.

(** C5, witness: [bob] submits 60, a new best at the top, and the insert
    of the announcement fails. *)
Lemma unlogged_announcement_published_witness :
  let st' := insert_score (twitterId bob) 60 sample_store in
  let m := system_message (T:=decimal_text) "bob" 1 60 in
  Supabase.top3 (E:=merge_engine) st' = Some [("bob", 60); ("alice", 50)] ∧
  (trace (run (Supabase.post_score (E:=merge_engine) (T:=decimal_text) logging_fails
                 (submit bob 60)) sample_store) =
     [InsertScore "1002" 60 true; InsertMessage m false; Emit m;
      Respond Success] ∧
   messages (final_store (run (Supabase.post_score (E:=merge_engine) (T:=decimal_text)
                                 logging_fails (submit bob 60)) sample_store))
     = []) ∧
  (trace (run (Sqlite.post_score (E:=merge_engine) (T:=decimal_text) logging_fails
                 (submit bob 60)) sample_store) =
     [InsertScore "1002" 60 true; Respond Success; InsertMessage m false;
      Emit m] ∧
   messages (final_store (run (Sqlite.post_score (E:=merge_engine) (T:=decimal_text)
                                 logging_fails (submit bob 60)) sample_store))
     = []).
Proof.
  intros st' m. split; [vm_compute; reflexivity|].
  destruct (unlogged_announcement_published merge_engine decimal_text sample_store bob 60)
    as [Hsupabase Hsqlite].
  split.
  - apply (Hsupabase [("bob", 60); ("alice", 50)]); vm_compute; reflexivity.
  - apply Hsqlite. vm_compute. reflexivity.
Defined.

(* ===================================================================== *)
(** * Replay and live messages on one socket *)
(* ===================================================================== *)

Section one_batch.
Context (replay : Store → list ChatMessage).

Lemma run_events_snoc (s : Server) (es : list Event) (e : Event) :
  run_events replay s (es ++ [e]) = step replay (run_events replay s es) e.
Proof. unfold run_events. by rewrite foldl_app. Qed.


End one_batch.



(* ===================================================================== *)
(** * Further properties of single servers *)
(* ===================================================================== *)

(** The leaderboard of server.js and of server_mongo.js: one row per
    identity that has a profile and a score, carrying its profile and its
    best score, best score first, cut after 20 rows. *)
Theorem leaderboard_ranks_best_scores (E : Engine) (st : Store) :
  (ranks st (Sqlite.ranking st) ∧
   Sqlite.leaderboard st = project <$> take 20 (Sqlite.ranking st) ∧
   (length (Sqlite.leaderboard st) ≤ 20)%nat) ∧
  (∃ l, ranks st l ∧
        snd <$> Mongo.leaderboard st = project <$> take 20 l ∧
        (length (Mongo.leaderboard st) ≤ 20)%nat).
Proof.
  split.
  - split_and!; [apply sqlite_ranking_ranks|done|].
    unfold Sqlite.leaderboard. rewrite length_fmap, length_take. lia.
  - destruct (mongo_projected_ranks st) as (l & Hl & Hp). exists l.
    split_and!; [done| |].
    + unfold Mongo.leaderboard. rewrite Hp, <-!fmap_take, <-list_fmap_compose.
      done.
    + unfold Mongo.leaderboard. rewrite length_take. lia.
Qed.

(** server_mongo.js broadcasts an announcement only after its insert into
    the chat log has succeeded: whichever storage calls fail, every
    broadcast message is in the log when the handler ends, and in the
    trace its successful insert comes right before its broadcast. *)
Theorem mongo_publishes_only_logged (E : Engine) (T : NumberText)
    (f : Faults) (st : Store)
    (u : SessionUser) (score : Z) :
  let r := run (Mongo.post_score f (submit u score)) st in
  Forall (λ m, m ∈ payload <$> messages (final_store r) ∧
               ∃ t1 t2, trace r = t1 ++ InsertMessage m true :: Emit m :: t2)
         (emitted (trace r)).
Proof.
  intros r. unfold r. unfold_handler.
  destruct (score_insert_fails f); [constructor|].
  destruct (top3_query_fails f); [constructor|]. cbn.
  destruct (placed _ _ _ _ _); [|constructor].
  destruct (message_insert_fails f); [constructor|]. cbn.
  constructor; [|constructor]. split.
  - rewrite fmap_app. apply elem_of_app. right. cbn. by left.
  - by exists [InsertScore (twitterId u) score true], [Respond Success].
Qed.

(** server.js acknowledges a submission as soon as the score is recorded:
    whether or not the recomputation or the logging of the announcement
    fails afterwards, the one response is [Success] and the score is in
    the ledger. *)
Theorem sqlite_acknowledges_recorded_score (E : Engine) (T : NumberText) (st : Store)
    (u : SessionUser) (score : Z) (recompute logging : bool) :
  let f := {| score_insert_fails := false;
              top3_query_fails := recompute;
              message_insert_fails := logging |} in
  let r := run (Sqlite.post_score f (submit u score)) st in
  responses (trace r) = [Success] ∧
  scores (final_store r) =
    scores st ++ [{| row_twitterId := twitterId u; row_score := score |}].
Proof.
  intros f r. unfold r, f. unfold_handler. cbn.
  destruct recompute; [done|]. cbn.
  destruct (placed _ _ _ _ _); [|done]. by destruct logging.
Qed.

(** In the three servers the insert of an announcement into the chat log
    is issued right before the announcement is broadcast, whichever
    storage calls fail. *)
Theorem insert_issued_before_broadcast (E : Engine) (T : NumberText)
    (f : Faults) (st : Store)
    (u : SessionUser) (score : Z) :
  insert_precedes_emit
    (trace (run (Sqlite.post_score f (submit u score)) st)) = true ∧
  insert_precedes_emit
    (trace (run (Mongo.post_score f (submit u score)) st)) = true ∧
  insert_precedes_emit
    (trace (run (Supabase.post_score f (submit u score)) st)) = true.
Proof.
  split_and!; unfold_handler.
  - destruct (score_insert_fails f); [done|].
    destruct (top3_query_fails f); [done|]. cbn.
    destruct (placed _ _ _ _ _); [|done].
    destruct (message_insert_fails f); cbn; by rewrite bool_decide_eq_true_2.
  - destruct (score_insert_fails f); [done|].
    destruct (top3_query_fails f); [done|]. cbn.
    destruct (placed _ _ _ _ _); [|done].
    destruct (message_insert_fails f); cbn; [done|].
    by rewrite bool_decide_eq_true_2.
  - destruct (score_insert_fails f); [done|].
    destruct (top3_query_fails f); [done|]. cbn.
    destruct (Supabase.deduplicate _ _ _) as [us|]; [|done]. cbn.
    destruct (placed _ _ _ _ _); [|done].
    destruct (message_insert_fails f); cbn; by rewrite bool_decide_eq_true_2.
Qed.

(* ===================================================================== *)
(** * What a score submission changes *)
(* ===================================================================== *)

Ltac handler_cases :=
  unfold_handler; cbn;
  repeat first
    [ done
    | match goal with
      | |- context [placed ?a ?b ?c ?d ?e] => destruct (placed a b c d e); cbn
      | |- context [Supabase.deduplicate ?a ?b ?c] =>
        destruct (Supabase.deduplicate a b c); cbn
      end ].

Section frame.
Context {E : Engine} {T : NumberText}.

Lemma sqlite_post_store f req st :
  let r := run (Sqlite.post_score f req) st in
  final_store r =
  logged (if message_insert_fails f then [] else emitted (trace r))
         (recorded f req st).
Proof.
  destruct req as [[u|] score], f as [[] [] []]; unfold recorded; unfold_handler;
    handler_cases.
Qed.

Lemma mongo_post_store f req st :
  let r := run (Mongo.post_score f req) st in
  final_store r =
  logged (if message_insert_fails f then [] else emitted (trace r))
         (recorded f req st).
Proof.
  destruct req as [[u|] score], f as [[] [] []]; unfold recorded; unfold_handler;
    handler_cases.
Qed.

Lemma supabase_post_store f req st :
  let r := run (Supabase.post_score f req) st in
  final_store r =
  logged (if message_insert_fails f then [] else emitted (trace r))
         (recorded f req st).
Proof.
  destruct req as [[u|] score], f as [[] [] []]; unfold recorded; unfold_handler;
    handler_cases.
Qed.
End frame.

(* ---------- chat log ---------- *)
Lemma logged_users ms st : users (logged ms st) = users st.
Proof.
  induction ms as [|m ms IH] using rev_ind; [done|].
  by rewrite logged_snoc.
Qed.

Lemma logged_scores ms st : scores (logged ms st) = scores st.
Proof.
  induction ms as [|m ms IH] using rev_ind; [done|].
  by rewrite logged_snoc.
Qed.

Lemma logged_messages_prefix ms st :
  messages st `prefix_of` messages (logged ms st).
Proof.
  induction ms as [|m ms IH] using rev_ind; [done|].
  rewrite logged_snoc. cbn. by apply prefix_app_r.
Qed.

Lemma insert_message_increasing m st :
  increasing (messages st) → increasing (messages (insert_message m st)).
Proof.
  intros Hs. cbn. apply StronglySorted_app_2; [|done|repeat constructor].
  intros a b Ha ->%list_elem_of_singleton. cbn. by apply next_id_above.
Qed.

Lemma logged_keeps_increasing ms st :
  increasing (messages st) → increasing (messages (logged ms st)).
Proof.
  intros Hs. induction ms as [|m ms IH] using rev_ind; [done|].
  rewrite logged_snoc. by apply insert_message_increasing.
Qed.

Lemma replay_increasing (E : Engine) st :
  increasing (messages st) →
  payload <$> reverse (take 50 (order_desc msg_id (messages st))) =
  last_fifty (payload <$> messages st).
Proof.
  intros Hs. unfold last_fifty.
  rewrite (order_desc_increasing E) by done.
  by rewrite reverse_take, reverse_involutive, length_reverse, fmap_drop,
    length_fmap.
Qed.

Lemma replay_insert_last (E : Engine) m st :
  last (payload <$> reverse (take 50 (order_desc msg_id
                                        (messages (insert_message m st))))) =
  Some m.
Proof.
  cbn [insert_message messages].
  set (n := {| msg_id := next_id (messages st);
               msg_user := user m; msg_text := text m |}).
  pose proof (order_desc_perm _ msg_id (messages st ++ [n])) as Hp.
  pose proof (order_desc_sorted _ msg_id (messages st ++ [n])) as Hs.
  destruct (order_desc msg_id (messages st ++ [n])) as [|h tl].
  { apply Permutation_nil in Hp. by destruct (messages st). }
  assert (h = n) as ->.
  { assert (h ∈ messages st ++ [n]) as Hh by (rewrite <-Hp; left).
    apply elem_of_app in Hh as [Hh|Hh%list_elem_of_singleton]; [|done].
    apply next_id_above in Hh.
    assert (n ∈ h :: tl) as Hn by (rewrite Hp; set_solver).
    apply elem_of_cons in Hn as [Hn|Hn]; [done|].
    apply StronglySorted_inv in Hs as [_ Hall].
    rewrite Forall_forall in Hall. specialize (Hall n Hn).
    unfold desc in Hall. cbn in Hall. lia. }
  change (take 50 (n :: tl)) with (n :: take 49 tl).
  rewrite reverse_cons, fmap_app. cbn [fmap list_fmap].
  rewrite last_snoc. by destruct m.
Qed.

Lemma recorded_users f req st : users (recorded f req st) = users st.
Proof. unfold recorded. by repeat case_match. Qed.
Lemma recorded_messages f req st : messages (recorded f req st) = messages st.
Proof. unfold recorded. by repeat case_match. Qed.
Lemma recorded_scores f req st :
  scores (recorded f req st) =
  scores st ++
    match session req with
    | Some u =>
      if score_insert_fails f then []
      else [{| row_twitterId := twitterId u; row_score := body_score req |}]
    | None => []
    end.
Proof. unfold recorded. repeat case_match; by rewrite ?app_nil_r. Qed.

Section submission.
Context {E : Engine} {T : NumberText}.

(** A score submission only appends.  Whatever the request and whichever
    storage calls fail, the three handlers leave the directory as it was,
    add to the ledger the submitted score and nothing else (nothing when
    the request is not authenticated or the score insert fails), and add
    to the chat log the announcement they broadcast and nothing else
    (nothing when that insert fails); the rows the ledger and the log held
    stay where they were. *)
Theorem submission_only_appends (f : Faults) (req : Request) (st : Store) :
  let new_score :=
    match session req with
    | Some u =>
      if score_insert_fails f then []
      else [{| row_twitterId := twitterId u; row_score := body_score req |}]
    | None => []
    end in
  let appends (r : Outcome () * Store * list Effect) :=
    users (final_store r) = users st ∧
    scores (final_store r) = scores st ++ new_score ∧
    messages (final_store r) =
      messages (logged (if message_insert_fails f then []
                        else emitted (trace r)) st) ∧
    messages st `prefix_of` messages (final_store r) in
  appends (run (Sqlite.post_score f req) st) ∧
  appends (run (Mongo.post_score f req) st) ∧
  appends (run (Supabase.post_score f req) st).
Proof.
  assert (∀ r : Outcome () * Store * list Effect,
    final_store r =
      logged (if message_insert_fails f then [] else emitted (trace r))
             (recorded f req st) →
    users (final_store r) = users st ∧
    scores (final_store r) =
      scores st ++
        match session req with
        | Some u =>
          if score_insert_fails f then []
          else [{| row_twitterId := twitterId u; row_score := body_score req |}]
        | None => []
        end ∧
    messages (final_store r) =
      messages (logged (if message_insert_fails f then []
                        else emitted (trace r)) st) ∧
    messages st `prefix_of` messages (final_store r)) as Hgen.
  { intros r ->. split_and!.
    - by rewrite logged_users, recorded_users.
    - by rewrite logged_scores, recorded_scores.
    - generalize (if message_insert_fails f then [] else emitted (trace r)).
      intros ms. induction ms as [|m ms IH] using rev_ind.
      + apply recorded_messages.
      + rewrite !logged_snoc. cbn. by rewrite IH.
    - rewrite <-(recorded_messages f req st) at 1.
      apply logged_messages_prefix. }
  cbv zeta.
  split; [apply Hgen, sqlite_post_store|].
  split; [apply Hgen, mongo_post_store|apply Hgen, supabase_post_store].
Qed.
End submission.

(* ===================================================================== *)
(** * The announced rank *)
(* ===================================================================== *)

Lemma beating_below {A} (key : A → Z) (l : list A) (i : nat) (r : A) :
  StronglySorted (desc key) l → l !! i = Some r →
  (length (beating key (key r) l) ≤ i)%nat.
Proof.
  intros Hs Hi. unfold beating.
  rewrite <-(take_drop i l), filter_app, length_app.
  assert (filter (λ x, key r < key x) (drop i l) = []) as ->.
  { destruct (filter _ (drop i l)) as [|x tl] eqn:Hf; [done|exfalso].
    assert (x ∈ filter (λ x, key r < key x) (drop i l)) as Hx
      by (rewrite Hf; left).
    apply list_elem_of_filter in Hx as [Hlt [j Hj]%list_elem_of_lookup].
    rewrite lookup_drop in Hj.
    destruct j as [|j].
    - rewrite Nat.add_0_r in Hj. assert (x = r) as -> by congruence. lia.
    - pose proof (sorted_lookup _ l i (i + S j) r x Hs Hi Hj) as Hd.
      unfold desc in Hd. lia. }
  pose proof (length_filter (λ x, key r < key x) (take i l)).
  rewrite length_take in *. cbn. lia.
Qed.

Section detector_bounds.
Context {R : Type} (un : R → string) (hs : R → Z).

Lemma announced_rank (l : list R) (name : string) (score : Z) :
  StronglySorted (desc hs) l →
  placed un hs (take 3 l) name score = true →
  (1 ≤ rank un (take 3 l) name ≤ 3)%nat ∧
  (length (beating hs score l) < rank un (take 3 l) name)%nat.
Proof.
  intros Hs (i & r & Hfind & Hi & Hr)%placed_true.
  unfold rank. rewrite Hfind.
  apply list_find_take_Some in Hfind as [Hfind _].
  apply list_find_Some in Hfind as (Hl & _ & _).
  pose proof (beating_below hs l i r Hs Hl) as Hb. rewrite Hr in Hb. lia.
Qed.
End detector_bounds.

Section announcements.
Context {E : Engine} {T : NumberText}.

Lemma supabase_uniqueScores_sorted st rows :
  Supabase.uniqueScores st = Some rows → StronglySorted (desc snd) rows.
Proof.
  unfold Supabase.uniqueScores. rewrite deduplicate_first_seen.
  destruct (named (Supabase.select_scores st)) as [nd|] eqn:Hn; [|done].
  cbn. intros [= <-].
  apply (sorted_fmap_desc _ snd snd); [by intros []|].
  apply first_seen_sorted. by apply (select_scores_named_sorted st).
Qed.

(** An announcement is only made for a score of the top three.  Whatever
    the request and whichever storage calls fail, each handler broadcasts
    nothing or exactly one message: the announcement template filled with
    the session's username, the submitted score and a rank [k] between 1
    and 3, and fewer than [k] rows of the whole recomputed ranking carry a
    best score above the submitted one. *)
Theorem announcement_only_for_top_three (f : Faults) (req : Request)
    (st : Store) :
  let announces (r : Outcome () * Store * list Effect)
                (beaten_by : SessionUser → nat) :=
    emitted (trace r) = [] ∨
    ∃ u k, session req = Some u ∧ (1 ≤ k ≤ 3)%nat ∧
           emitted (trace r) =
             [system_message (username (session_profile u)) k (body_score req)] ∧
           (beaten_by u < k)%nat in
  let st' u := insert_score (twitterId u) (body_score req) st in
  announces (run (Sqlite.post_score f req) st)
    (λ u, length (beating highScore (body_score req) (Sqlite.ranking (st' u)))) ∧
  announces (run (Mongo.post_score f req) st)
    (λ u, length (beating highScore (body_score req) (Mongo.ranking (st' u)))) ∧
  announces (run (Supabase.post_score f req) st)
    (λ u, match Supabase.uniqueScores (st' u) with
          | Some rows => length (beating snd (body_score req) rows)
          | None => O
          end).
Proof.
  cbv zeta. destruct req as [[u|] score]; cbn [session body_score];
    [|split_and!; left; reflexivity].
  split_and!.
  - rewrite sqlite_emitted.
    destruct (_ || _); [by left|]. cbv zeta.
    destruct (placed _ _ _ _ _) eqn:Hp; [|by left]. right.
    apply announced_rank in Hp as [Hk Hb]; [|apply sqlite_ranking_sorted].
    eexists u, _. split; [done|]. split; [exact Hk|]. split; [reflexivity|exact Hb].
  - rewrite mongo_emitted.
    destruct (_ || _); [by left|]. cbv zeta.
    destruct (placed _ _ _ _ _) eqn:Hp; [|by left].
    destruct (message_insert_fails f); [by left|]. right.
    apply announced_rank in Hp as [Hk Hb]; [|apply order_desc_sorted].
    eexists u, _. split; [done|]. split; [exact Hk|]. split; [reflexivity|exact Hb].
  - rewrite supabase_emitted.
    destruct (_ || _); [by left|].
    unfold Supabase.top3.
    destruct (Supabase.uniqueScores _) as [rows|] eqn:Hu; [|by left].
    cbn. destruct (placed _ _ _ _ _) eqn:Hp; [|by left]. right.
    apply announced_rank in Hp as [Hk Hb];
      [|by apply (supabase_uniqueScores_sorted _ _ Hu)].
    eexists u, _. split; [done|]. split; [exact Hk|].
    split; [reflexivity|by rewrite Hu].
Qed.
End announcements.

(* ===================================================================== *)
(** * The chat handler and the next replay *)
(* ===================================================================== *)

Ltac unfold_chat :=
  unfold run, trace, final_store, emitted,
    Sqlite.chat_message, Mongo.chat_message, Supabase.chat_message,
    Mongo.insertOne_message, store_insert_message, emit, effect, throw,
    mbind, mret, M_bind, M_ret.

Section chat.
Context {E : Engine} {T : NumberText}.

(** The chat handler.  server.js broadcasts every chat message it is
    sent, whether or not the insert into the log succeeds;
    server_mongo.js and server_supabase.js broadcast it only when the
    insert has succeeded.  A message that has been logged, whatever its
    author field, whatever the log held and however the engine breaks ties,
    is the last message of a replay computed right after. *)
Theorem chat_broadcast_and_replay (f : Faults) (msg : ChatMessage)
    (st : Store) :
  let sqlite := run (Sqlite.chat_message f msg) st in
  let mongo := run (Mongo.chat_message f msg) st in
  let supabase := run (Supabase.chat_message f msg) st in
  (emitted (trace sqlite) = [msg] ∧
   final_store sqlite =
     (if message_insert_fails f then st else insert_message msg st) ∧
   (message_insert_fails f = false →
    last (Sqlite.replay Answered (final_store sqlite)) = Some msg)) ∧
  (emitted (trace mongo) = (if message_insert_fails f then [] else [msg]) ∧
   final_store mongo =
     (if message_insert_fails f then st else insert_message msg st) ∧
   (∀ m, m ∈ emitted (trace mongo) →
         last (Mongo.replay true Answered (final_store mongo)) = Some m)) ∧
  (emitted (trace supabase) = (if message_insert_fails f then [] else [msg]) ∧
   final_store supabase =
     (if message_insert_fails f then st else insert_message msg st) ∧
   (∀ m, m ∈ emitted (trace supabase) →
         last (Supabase.replay Answered (final_store supabase)) = Some m)).
Proof.
  cbv zeta. unfold_chat.
  destruct (message_insert_fails f); cbn.
  - split_and!; try done; by intros m ?%elem_of_nil.
  - split_and!; try done.
    + intros _. apply replay_insert_last.
    + intros m ->%list_elem_of_singleton. apply replay_insert_last.
    + intros m ->%list_elem_of_singleton. apply replay_insert_last.
Qed.

Lemma sqlite_emits_at_most_one f req st :
  let r := run (Sqlite.post_score f req) st in
  emitted (trace r) = [] ∨ ∃ m, emitted (trace r) = [m].
Proof.
  destruct req as [[u|] score]; [|by left]. cbv zeta. rewrite sqlite_emitted.
  cbv zeta. repeat case_match; first [by left | by right; eexists].
Qed.

Lemma mongo_emits_at_most_one f req st :
  let r := run (Mongo.post_score f req) st in
  emitted (trace r) = [] ∨ ∃ m, emitted (trace r) = [m].
Proof.
  destruct req as [[u|] score]; [|by left]. cbv zeta. rewrite mongo_emitted.
  cbv zeta. repeat case_match; first [by left | by right; eexists].
Qed.

Lemma supabase_emits_at_most_one f req st :
  let r := run (Supabase.post_score f req) st in
  emitted (trace r) = [] ∨ ∃ m, emitted (trace r) = [m].
Proof.
  destruct req as [[u|] score]; [|by left]. cbv zeta. rewrite supabase_emitted.
  cbv zeta. repeat case_match; first [by left | by right; eexists].
Qed.

Lemma logged_one_newest (r : Outcome () * Store * list Effect) (st : Store)
    (m : ChatMessage) :
  emitted (trace r) = [] ∨ (∃ m, emitted (trace r) = [m]) →
  final_store r = logged (emitted (trace r)) st →
  m ∈ emitted (trace r) →
  last (payload <$> reverse (take 50 (order_desc msg_id
                                        (messages (final_store r))))) = Some m.
Proof.
  intros [He|[m' He]] ->; rewrite He; [by intros ?%elem_of_nil|].
  intros ->%list_elem_of_singleton. apply replay_insert_last.
Qed.

(** An announcement that has been logged is the newest message of the
    next replay: after the score route has broadcast an announcement, a
    replay computed on the store it leaves ends with that announcement,
    in server_mongo.js always, in server.js and server_supabase.js when
    the insert into the log has not failed. *)
Theorem announcement_is_newest_replayed (f : Faults) (req : Request)
    (st : Store) :
  let sqlite := run (Sqlite.post_score f req) st in
  let mongo := run (Mongo.post_score f req) st in
  let supabase := run (Supabase.post_score f req) st in
  (∀ m, m ∈ emitted (trace sqlite) → message_insert_fails f = false →
        last (Sqlite.replay Answered (final_store sqlite)) = Some m) ∧
  (∀ m, m ∈ emitted (trace mongo) →
        last (Mongo.replay true Answered (final_store mongo)) = Some m) ∧
  (∀ m, m ∈ emitted (trace supabase) → message_insert_fails f = false →
        last (Supabase.replay Answered (final_store supabase)) = Some m).
Proof.
  cbv zeta. split_and!.
  - intros m Hin Hm.
    apply (logged_one_newest _ (recorded f req st));
      [apply sqlite_emits_at_most_one| |done].
    by rewrite sqlite_post_store, Hm.
  - intros m Hin.
    apply (logged_one_newest _ (recorded f req st));
      [apply mongo_emits_at_most_one| |done].
    rewrite mongo_post_store. destruct (message_insert_fails f) eqn:Hm; [|done].
    destruct req as [[u|] score]; [|done].
    rewrite mongo_emitted in Hin |- *. cbv zeta in Hin |- *.
    rewrite Hm in Hin |- *. by repeat case_match.
  - intros m Hin Hm.
    apply (logged_one_newest _ (recorded f req st));
      [apply supabase_emits_at_most_one| |done].
    by rewrite supabase_post_store, Hm.
Qed.
End chat.

(* ===================================================================== *)
(** * The Supabase leaderboard, by username *)
(* ===================================================================== *)

Lemma sorted_take {A} (R : relation A) (l : list A) (n : nat) :
  StronglySorted R l → StronglySorted R (take n l).
Proof.
  intros Hs. revert n. induction Hs as [|a l Hs IH Hall]; intros [|n]; cbn;
    constructor; [apply IH|by apply Forall_take].
Qed.

Section supabase_board.
Context {E : Engine} {T : NumberText}.

Lemma named_covered st :
  is_Some (named (Supabase.select_scores st)) ↔ ledger_covered st.
Proof.
  split; [|apply select_scores_covered].
  intros [nd Hnd]. unfold ledger_covered. apply Forall_forall. intros s Hs.
  assert ({| Supabase.entry_score := row_score s;
             Supabase.entry_users := users st !! row_twitterId s |}
          ∈ Supabase.select_scores st) as He
    by (apply select_scores_elem; eauto).
  apply named_Forall2 in Hnd.
  apply list_elem_of_lookup in He as [i Hi].
  destruct (Forall2_lookup_l _ _ _ _ _ Hnd Hi) as (x & _ & Hx & _).
  cbn in Hx. by rewrite Hx.
Qed.

Lemma elem_of_scores_named name st v :
  v ∈ scores_named name st ↔
  ∃ s p, s ∈ scores st ∧ users st !! row_twitterId s = Some p ∧
         username p = name ∧ row_score s = v.
Proof.
  unfold scores_named. rewrite list_elem_of_fmap. split.
  - intros (s & -> & [Hu Hs]%list_elem_of_filter).
    destruct (users st !! row_twitterId s) as [p|] eqn:Hp; [|done].
    cbn in Hu. exists s, p. split_and!; [done..|congruence|done].
  - intros (s & p & Hs & Hp & <- & <-). exists s. split; [done|].
    apply list_elem_of_filter. split; [|done]. by rewrite Hp.
Qed.

Lemma first_seen_maximum st nd p v :
  named (Supabase.select_scores st) = Some nd →
  (p, v) ∈ first_seen (username ∘ fst) nd ∅ →
  maximum (scores_named (username p) st) = Some v.
Proof.
  intros Hnd Hin. apply maximum_Some. split.
  - apply first_seen_elem in Hin as [Hin _].
    apply (select_scores_named st nd p v Hnd) in Hin as (s & Hs & Hp & Hv).
    apply elem_of_scores_named. by exists s, p.
  - intros x (s & p' & Hs & Hp & Hname & Hx)%elem_of_scores_named.
    assert ((p', x) ∈ nd) as Hin'
      by (apply (select_scores_named st nd p' x Hnd); eauto).
    pose proof (first_seen_first (username ∘ fst) (desc snd) nd ∅
                  (p, v) (p', x)
                  (select_scores_named_sorted st nd Hnd) Hin Hin') as Hd.
    unfold desc in Hd. cbn in Hd. by apply Hd.
Qed.

Lemma supabase_leaderboard_fails st :
  Supabase.leaderboard Answered st = None ↔ ¬ ledger_covered st.
Proof.
  unfold Supabase.leaderboard, Supabase.userMap.
  rewrite forEach_entry_first_seen, <-named_covered.
  destruct (named (Supabase.select_scores st)); cbn.
  - split; [done|]. intros []. eauto.
  - split; [|done]. by intros _ [? ?].
Qed.

(** What [GET /api/leaderboard] of server_supabase.js returns.  It
    answers with status 500 exactly when its query fails or some score of
    the ledger belongs to no user of the directory.  Otherwise it lists at
    most 20 rows, no two with the same username, best score first, every
    row carrying the largest score submitted under its username; and
    every username with a score is listed unless the list is full. *)
Theorem supabase_leaderboard_by_username (st : Store) :
  (∀ q, Supabase.leaderboard q st = None ↔
        q = Failed ∨ ¬ ledger_covered st) ∧
  ∀ q rows, Supabase.leaderboard q st = Some rows →
    (length rows ≤ 20)%nat ∧
    NoDup (lb_username <$> rows) ∧
    StronglySorted (desc lb_highScore) rows ∧
    (∀ row, row ∈ rows →
       maximum (scores_named (lb_username row) st) = Some (lb_highScore row)) ∧
    (∀ name v, v ∈ scores_named name st →
       length rows = 20%nat ∨ ∃ row, row ∈ rows ∧ lb_username row = name).
Proof.
  split.
  { intros []; [|by split; [left|]].
    rewrite supabase_leaderboard_fails. split; [by right|by intros [|]]. }
  intros []; [|done].
  unfold Supabase.leaderboard.
  destruct (named (Supabase.select_scores st)) as [nd|] eqn:Hnd.
  - destruct (supabase_userMap_values _ st nd Hnd) as (um & -> & Hum).
    cbn. rewrite Hum. clear um Hum.
    intros rows [= <-].
    set (fs := first_seen (username ∘ fst) nd ∅).
    assert (∀ p v, (p, v) ∈ fs →
              maximum (scores_named (username p) st) = Some v) as Hmax
      by (intros p v; by apply first_seen_maximum).
    split_and!.
    + rewrite length_take. lia.
    + rewrite fmap_take, <-list_fmap_compose.
      eapply sublist_NoDup; [|apply sublist_take].
      apply (first_seen_NoDup (username ∘ fst)).
    + apply sorted_take.
      apply (sorted_fmap_desc _ snd lb_highScore); [by intros []|].
      apply first_seen_sorted. by apply (select_scores_named_sorted st).
    + intros row (j & Hj%list_elem_of_lookup_2 & _)%elem_of_take.
      apply list_elem_of_fmap in Hj as [[p v] [-> Hin]].
      cbn. by apply Hmax.
    + intros name v (s & p & Hs & Hp & Hname & Hv)%elem_of_scores_named.
      destruct (decide (length fs ≤ 20)%nat) as [Hle|Hgt].
      * right. rewrite take_ge by by rewrite length_fmap.
        assert ((p, v) ∈ nd) as Hin
          by (apply (select_scores_named st nd p v Hnd); eauto).
        destruct (first_seen_covers (username ∘ fst) nd ∅ (p, v) Hin)
          as ([p' v'] & Hin' & Hkey); [set_solver|].
        exists (Supabase.row_of p' v'). split.
        -- apply list_elem_of_fmap. by exists (p', v').
        -- cbn in *. congruence.
      * left. rewrite length_take, length_fmap. lia.
  - assert (Supabase.userMap st = None) as ->.
    { unfold Supabase.userMap. by rewrite forEach_entry_first_seen, Hnd. }
    done.
Qed.
End supabase_board.

(* ===================================================================== *)
(** * The rows a submission moves, and scores without a user *)
(* ===================================================================== *)

Lemma bestScore_insert_other (tid tid' : string) (v : Z) (ss : list ScoreRow) :
  tid' ≠ tid →
  bestScore tid (ss ++ [{| row_twitterId := tid'; row_score := v |}]) =
  bestScore tid ss.
Proof.
  intros Hne. unfold bestScore. rewrite scores_of_snoc.
  destruct (decide (tid' = tid)); [done|]. by rewrite app_nil_r.
Qed.

Section own_row.
Context (st : Store) (u : SessionUser) (score : Z).

Lemma ranks_others_kept (l l' : list Ranked) (r : Ranked) :
  ranks st l → ranks (insert_score (twitterId u) score st) l' →
  rk_twitterId r ≠ twitterId u → (r ∈ l' ↔ r ∈ l).
Proof.
  intros (_ & Hl & _) (_ & Hl' & _) Hne. rewrite Hl, Hl'.
  cbn [insert_score users scores].
  by rewrite bestScore_insert_other.
Qed.

Lemma ranks_own_raised (l' : list Ranked) (r : Ranked) :
  ranks (insert_score (twitterId u) score st) l' →
  r ∈ l' → rk_twitterId r = twitterId u →
  highScore r = match bestScore (twitterId u) (scores st) with
                | Some b => Z.max b score
                | None => score
                end.
Proof.
  intros (_ & Hl' & _) [_ Hb]%Hl' Heq. rewrite Heq in Hb.
  cbn [insert_score users scores] in Hb.
  rewrite bestScore_insert_same in Hb. congruence.
Qed.
End own_row.

(** A submission moves no row but the submitter's: in the rankings of
    server.js and server_mongo.js the rows of every other identity are
    the same before and after the insert of the score, and the submitter's
    row carries the larger of its previous best score and the submitted
    score. *)
Theorem submission_moves_only_own_row (E : Engine) (st : Store)
    (u : SessionUser) (score : Z) :
  let st' := insert_score (twitterId u) score st in
  let only_own_row (before after : list Ranked) :=
    (∀ r, rk_twitterId r ≠ twitterId u → (r ∈ after ↔ r ∈ before)) ∧
    (∀ r, r ∈ after → rk_twitterId r = twitterId u →
          highScore r = match bestScore (twitterId u) (scores st) with
                        | Some b => Z.max b score
                        | None => score
                        end) in
  only_own_row (Sqlite.ranking st) (Sqlite.ranking st') ∧
  only_own_row (Mongo.ranking st) (Mongo.ranking st').
Proof.
  cbv zeta. split; split.
  - intros r. apply (ranks_others_kept st u score); apply sqlite_ranking_ranks.
  - intros r. apply (ranks_own_raised st u score), sqlite_ranking_ranks.
  - intros r. apply (ranks_others_kept st u score); apply mongo_ranking_ranks.
  - intros r. apply (ranks_own_raised st u score), mongo_ranking_ranks.
Qed.

Section orphans.
Context {E : Engine} {T : NumberText}.

Lemma joined_orphan st tid score :
  users st !! tid = None →
  Sqlite.joined (insert_score tid score st) = Sqlite.joined st.
Proof.
  intros Hu. unfold Sqlite.joined. cbn [insert_score users scores].
  rewrite omap_app. cbn. rewrite Hu. cbn. by rewrite app_nil_r.
Qed.

Lemma uncovered_insert st tid score :
  ¬ ledger_covered st → ¬ ledger_covered (insert_score tid score st).
Proof.
  intros Hn Hc. apply Hn. unfold ledger_covered in *. cbn in Hc.
  by apply Forall_app in Hc as [Hc _].
Qed.

Lemma uncovered_uniqueScores st :
  ¬ ledger_covered st → Supabase.deduplicate (Supabase.select_scores st) ∅ [] = None.
Proof.
  intros Hn. rewrite deduplicate_first_seen.
  destruct (named (Supabase.select_scores st)) eqn:Hnd; [|done].
  destruct Hn. apply named_covered. eauto.
Qed.

Lemma supabase_uncovered_response st f u score :
  ¬ ledger_covered st →
  responses (trace (run (Supabase.post_score f (submit u score)) st)) =
  [ServerError].
Proof.
  intros Hn. unfold_handler.
  destruct (score_insert_fails f); [done|].
  destruct (top3_query_fails f); [done|]. cbn.
  by rewrite (uncovered_uniqueScores _ (uncovered_insert st _ _ Hn)).
Qed.

(** A score whose identity has no row in the directory.  server.js
    ignores it: ranking and leaderboard are what they were without it, and
    so is every ranking of the store.  server_supabase.js fails on it:
    the leaderboard route answers with status 500, and so does every later
    score submission, whoever submits and whichever storage calls fail. *)
Theorem orphan_score_hidden_or_fatal (st : Store) (tid : string) (score : Z) :
  users st !! tid = None →
  let st' := insert_score tid score st in
  (Sqlite.ranking st' = Sqlite.ranking st ∧
   Sqlite.leaderboard st' = Sqlite.leaderboard st) ∧
  (∀ l, ranks st' l ↔ ranks st l) ∧
  ((∀ q, Supabase.leaderboard q st' = None) ∧
   ∀ f u s, responses (trace (run (Supabase.post_score f (submit u s)) st')) =
            [ServerError]).
Proof.
  intros Hu st'.
  assert (¬ ledger_covered st') as Hn.
  { intros Hc. unfold ledger_covered, st' in Hc. cbn in Hc.
    apply Forall_app in Hc as [_ Hc]. rewrite Forall_singleton in Hc.
    cbn in Hc. destruct Hc as [? Hc]. congruence. }
  assert (Sqlite.ranking st' = Sqlite.ranking st) as Hr.
  { unfold Sqlite.ranking, Sqlite.grouped, st'. by rewrite joined_orphan. }
  split_and!.
  - done.
  - unfold Sqlite.leaderboard. by rewrite Hr.
  - intros l. unfold ranks.
    assert (∀ r : Ranked,
      users st' !! rk_twitterId r = Some (rk_user r) ∧
      bestScore (rk_twitterId r) (scores st') = Some (highScore r) ↔
      users st !! rk_twitterId r = Some (rk_user r) ∧
      bestScore (rk_twitterId r) (scores st) = Some (highScore r)) as Hiff.
    { intros r. unfold st'. cbn [insert_score users scores].
      destruct (decide (rk_twitterId r = tid)) as [->|Hne].
      - rewrite Hu. split; by intros [? ?].
      - by rewrite bestScore_insert_other. }
    split; intros (Hnd & Hl & Hs); (split_and!; [done| |done]);
      intros r; rewrite Hl; [apply Hiff|symmetry; apply Hiff].
  - intros []; [by apply supabase_leaderboard_fails|done].
  - intros f u s. by apply supabase_uncovered_response.
Qed.
End orphans.

Lemma orphan_score_hidden_or_fatal_witness :
  users sample_store !! "1009" = None ∧
  Sqlite.leaderboard (E:=merge_engine) (insert_score "1009" 99 sample_store) =
    Sqlite.leaderboard (E:=merge_engine) sample_store ∧
  Supabase.leaderboard (E:=merge_engine) Answered (insert_score "1009" 99 sample_store) =
    None ∧
  responses (trace (run (Supabase.post_score (E:=merge_engine) (T:=decimal_text) no_faults
                           (submit alice 60))
                        (insert_score "1009" 99 sample_store))) =
    [ServerError].
Proof.
  assert (users sample_store !! "1009" = None) as Hu by reflexivity.
  destruct (orphan_score_hidden_or_fatal (E:=merge_engine) (T:=decimal_text) sample_store
              "1009" 99 Hu) as ((_ & Hl) & _ & Hs & Hr).
  split; [exact Hu|]. split; [exact Hl|]. split; [exact (Hs Answered)|].
  apply Hr.
Defined.


(* ===================================================================== *)
(** * Live delivery *)
(* ===================================================================== *)

Section live.
Context (replay : Store → list ChatMessage).

Lemma lives_app d1 d2 : lives (d1 ++ d2) = lives d1 ++ lives d2.
Proof. unfold lives. by rewrite omap_app. Qed.

Lemma lives_replayed ms : lives (Replayed <$> ms) = [].
Proof. by induction ms. Qed.

Lemma step_live (s : Server) (e : Event) (c : nat) :
  is_Some (sockets s !! c) →
  is_Some (sockets (step replay s e) !! c) ∧
  lives (received (step replay s e) c) =
  lives (received s c) ++ publishes [e].
Proof.
  intros [k Hk]. unfold received. destruct e as [c'|c'|c'|m|m]; cbn.
  - destruct (sockets s !! c') eqn:Hc'; cbn; rewrite ?Hk, ?app_nil_r; [eauto|].
    rewrite lookup_insert_ne by congruence. rewrite Hk. eauto.
  - destruct (sockets s !! c') as [[[] i]|] eqn:Hc'; cbn;
      rewrite ?Hk, ?app_nil_r; eauto.
    destruct (decide (c' = c)) as [->|Hne].
    + rewrite lookup_insert_eq. cbn. split; [eauto|].
      by assert (k = {| phase := Querying; inbox := i |}) as -> by congruence.
    + rewrite lookup_insert_ne by done. rewrite Hk. eauto.
  - destruct (sockets s !! c') as [[[] i]|] eqn:Hc'; cbn;
      rewrite ?Hk, ?app_nil_r; eauto.
    destruct (decide (c' = c)) as [->|Hne].
    + rewrite lookup_insert_eq. cbn. split; [eauto|].
      assert (k = {| phase := Fetched seen; inbox := i |}) as -> by congruence.
      cbn. by rewrite lives_app, lives_replayed, app_nil_r.
    + rewrite lookup_insert_ne by done. rewrite Hk. eauto.
  - rewrite Hk, app_nil_r. eauto.
  - rewrite lookup_fmap, Hk. cbn. split; [eauto|]. by rewrite lives_app.
Qed.

Lemma run_events_live (s : Server) (es : list Event) (c : nat) :
  is_Some (sockets s !! c) →
  is_Some (sockets (run_events replay s es) !! c) ∧
  lives (received (run_events replay s es) c) =
  lives (received s c) ++ publishes es.
Proof.
  intros Hc. induction es as [|e es IH] using rev_ind.
  - cbn. by rewrite app_nil_r.
  - rewrite run_events_snoc. destruct IH as [Hc' IH].
    destruct (step_live (run_events replay s es) e c Hc') as [Hc'' Hl].
    split; [done|]. rewrite Hl, IH. unfold publishes.
    by rewrite omap_app, <-app_assoc.
Qed.

(** Live delivery.  From the moment a socket connects, it receives live
    exactly the messages broadcast since, each once and in the order of
    the broadcasts, whatever else happens in between (its own replay, other
    connections, inserts into the log). *)
Theorem live_messages_once_in_order (s : Server) (c : nat) (es : list Event) :
  lives (received (run_events replay (step replay s (Connect c)) es) c) =
  lives (received s c) ++ publishes es.
Proof.
  assert (is_Some (sockets (step replay s (Connect c)) !! c) ∧
          received (step replay s (Connect c)) c = received s c) as [Hc Hr].
  { unfold received. cbn. destruct (sockets s !! c) eqn:Hc; cbn.
    - rewrite Hc. eauto.
    - rewrite lookup_insert_eq. eauto. }
  destruct (run_events_live (step replay s (Connect c)) es c Hc) as [_ ->].
  by rewrite Hr.
Qed.
End live.

(* ===================================================================== *)
(** * Histories of the application *)
(* ===================================================================== *)

Lemma serve_all_snoc h a acts act :
  serve_all h a (acts ++ [act]) = serve h (serve_all h a acts) act.
Proof. unfold serve_all. by rewrite foldl_app. Qed.

Lemma sqlite_verify_run fails profile st :
  run (Sqlite.verify fails profile) st =
  match user_of profile with
  | None => (Throw, st, [])
  | Some user =>
    if fails then (Ret (user, Exited), st, [])
    else (Ret (user, Running), upsert_user user st, [])
  end.
Proof. unfold run, Sqlite.verify. by destruct (user_of profile), fails. Qed.

Lemma mongo_verify_run fails profile st :
  run (Mongo.verify fails profile) st =
  match user_of profile with
  | None => (Throw, st, [])
  | Some user =>
    if fails then (Throw, st, [])
    else (Ret (user, Running), upsert_user user st, [])
  end.
Proof. unfold run, Mongo.verify. by destruct (user_of profile), fails. Qed.

Lemma supabase_verify_run fails profile st :
  run (Supabase.verify fails profile) st =
  match user_of profile with
  | None => (Throw, st, [])
  | Some user =>
    if fails then (Ret (user, Running), st, [])
    else (Ret (user, Running), upsert_user user st, [])
  end.
Proof. unfold run, Supabase.verify. by destruct (user_of profile), fails. Qed.

Lemma user_of_id profile user :
  user_of profile = Some user → twitterId user = profile_id profile.
Proof. unfold user_of. destruct (photos profile); [done|]. by intros [= <-]. Qed.

Section application.
Context (h : Handlers) (lenient exits : bool).
Hypothesis verify_run : ∀ fails profile st,
  run (h_verify h fails profile) st =
  match user_of profile with
  | None => (Throw, st, [])
  | Some user =>
    if fails
    then (if lenient then (Ret (user, Running), st, [])
          else if exits then (Ret (user, Exited), st, [])
          else (Throw, st, []))
    else (Ret (user, Running), upsert_user user st, [])
  end.
Hypothesis post_score_store : ∀ f req st,
  ∃ ms, final_store (run (h_post_score h f req) st) =
        logged ms (recorded f req st).
Hypothesis chat_message_store : ∀ f msg st,
  ∃ ms, final_store (run (h_chat_message h f msg) st) = logged ms st.

Lemma serve_increasing a act :
  increasing (messages (app_store a)) →
  increasing (messages (app_store (serve h a act))).
Proof.
  intros Hi. destruct act as [sid profile fails|sid|sid score f|msg f]; cbn.
  - rewrite verify_run. by destruct (user_of profile), fails, lenient, exits.
  - done.
  - destruct (post_score_store f {| session := app_sessions a !! sid;
                                    body_score := score |} (app_store a))
      as [ms ->].
    apply logged_keeps_increasing. by rewrite recorded_messages.
  - destruct (chat_message_store f msg (app_store a)) as [ms ->].
    by apply logged_keeps_increasing.
Qed.

Lemma serve_all_increasing acts :
  increasing (messages (app_store (serve_all h start acts))).
Proof.
  induction acts as [|act acts IH] using rev_ind; [constructor|].
  rewrite serve_all_snoc. by apply serve_increasing.
Qed.

Lemma serve_all_identities acts :
  let a := serve_all h start acts in
  (∀ sid u, app_sessions a !! sid = Some u → twitterId u ∈ logins acts) ∧
  Forall (λ s, row_twitterId s ∈ logins acts) (scores (app_store a)).
Proof.
  induction acts as [|act acts [IHs IHl]] using rev_ind.
  { split; [by intros sid u ?|constructor]. }
  cbv zeta. rewrite serve_all_snoc. unfold logins. rewrite omap_app.
  fold (logins acts).
  assert (∀ x l, x ∈ logins acts → x ∈ logins acts ++ l) as Hweak
    by (intros; apply elem_of_app; by left).
  destruct act as [sid profile fails|sid|sid score f|msg f]; cbn.
  - rewrite verify_run.
    destruct (user_of profile) as [user|] eqn:Hu; cbn.
    + assert (∀ sid' u,
        <[sid := user]> (app_sessions (serve_all h start acts)) !! sid' = Some u →
        twitterId u ∈ logins acts ++ [profile_id profile]) as Hs.
      { intros sid' u. destruct (decide (sid = sid')) as [->|Hne].
        - rewrite lookup_insert_eq. intros [= <-].
          rewrite (user_of_id _ _ Hu). set_solver.
        - rewrite lookup_insert_ne by done. intros ?%IHs. set_solver. }
      destruct fails, lenient, exits; cbn;
        (split; [first [by intros ? ? ?%lookup_empty_Some | eauto]|]);
        (eapply Forall_impl; [exact IHl|by eauto]).
    + split; [eauto|]. eapply Forall_impl; [exact IHl|by eauto].
  - split; [|by rewrite app_nil_r].
    intros sid' u [_ ?]%lookup_delete_Some. rewrite app_nil_r. eauto.
  - rewrite app_nil_r. split; [done|].
    destruct (post_score_store f {| session := app_sessions
                                       (serve_all h start acts) !! sid;
                                    body_score := score |}
                (app_store (serve_all h start acts))) as [ms ->].
    rewrite logged_scores, recorded_scores. cbn [session body_score].
    apply Forall_app. split; [done|].
    destruct (app_sessions _ !! sid) as [u|] eqn:Hsid; [|constructor].
    destruct (score_insert_fails f); constructor; [|constructor].
    cbn. eauto.
  - rewrite app_nil_r. split; [done|].
    destruct (chat_message_store f msg (app_store (serve_all h start acts)))
      as [ms ->].
    by rewrite logged_scores.
Qed.

Lemma serve_all_covered acts :
  lenient = false ∨ upserts_succeed acts = true →
  let a := serve_all h start acts in
  (∀ sid u, app_sessions a !! sid = Some u →
            is_Some (users (app_store a) !! twitterId u)) ∧
  ledger_covered (app_store a).
Proof.
  induction acts as [|act acts IH] using rev_ind; intros Hok.
  { split; [by intros sid u ?|constructor]. }
  destruct IH as [IHs IHl].
  { destruct Hok as [?|Hok]; [by left|right].
    unfold upserts_succeed in *. rewrite forallb_app in Hok.
    by apply andb_true_iff in Hok as [? _]. }
  assert (lenient = false ∨
          match act with Login _ _ fails => fails = false | _ => True end)
    as Hact.
  { destruct Hok as [?|Hok]; [by left|right].
    unfold upserts_succeed in Hok. rewrite forallb_app in Hok.
    apply andb_true_iff in Hok as [_ Hok]. cbn in Hok.
    destruct act as [? ? []| | |]; done. }
  clear Hok. cbv zeta. rewrite serve_all_snoc.
  set (a := serve_all h start acts) in *.
  destruct act as [sid profile fails|sid|sid score f|msg f]; cbn.
  - rewrite verify_run.
    destruct (user_of profile) as [user|] eqn:Hu; [|done].
    destruct fails.
    + destruct lenient eqn:Hl; [destruct Hact; congruence|].
      destruct exits; cbn; [|by split].
      split; [by intros ? ? ?%lookup_empty_Some|done].
    + cbn. split.
      * intros sid' u Hs.
        destruct (decide (twitterId user = twitterId u)) as [Heq|Hne].
        { rewrite Heq, lookup_insert_eq. eauto. }
        rewrite lookup_insert_ne by done.
        destruct (decide (sid = sid')) as [->|Hsid].
        { rewrite lookup_insert_eq in Hs. congruence. }
        rewrite lookup_insert_ne in Hs by done. eauto.
      * unfold ledger_covered in *. cbn. eapply Forall_impl; [exact IHl|].
        intros s Hs. cbn in Hs.
        destruct (decide (twitterId user = row_twitterId s)) as [->|Hne].
        { rewrite lookup_insert_eq. eauto. }
        by rewrite lookup_insert_ne.
  - split; [|done]. intros sid' u [_ ?]%lookup_delete_Some. eauto.
  - destruct (post_score_store f {| session := app_sessions a !! sid;
                                    body_score := score |} (app_store a))
      as [ms ->].
    split.
    + intros sid' u Hs. rewrite logged_users, recorded_users. eauto.
    + unfold ledger_covered.
      rewrite logged_users, recorded_users, logged_scores, recorded_scores.
      cbn [session body_score]. apply Forall_app. split; [done|].
      destruct (app_sessions a !! sid) as [u|] eqn:Hsid; [|constructor].
      destruct (score_insert_fails f); constructor; [|constructor].
      cbn. eauto.
  - destruct (chat_message_store f msg (app_store a)) as [ms ->].
    split.
    + intros sid' u Hs. rewrite logged_users. eauto.
    + unfold ledger_covered. by rewrite logged_users, logged_scores.
Qed.

Lemma signed_in_app (a : App) (sid : nat) (profile : TwitterProfile)
    (user : SessionUser) (score : Z) (f : Faults) :
  user_of profile = Some user →
  let a1 := serve h a (Login sid profile false) in
  app_sessions a1 !! sid = Some user ∧
  registered (app_store a1) user ∧
  (∀ tid, tid ≠ twitterId user →
     users (app_store a1) !! tid = users (app_store a) !! tid) ∧
  scores (app_store a1) = scores (app_store a) ∧
  messages (app_store a1) = messages (app_store a) ∧
  (score_insert_fails f = false →
   scores (app_store (serve h a1 (PostScore sid score f))) =
   scores (app_store a) ++
     [{| row_twitterId := twitterId user; row_score := score |}]).
Proof.
  intros Hu. cbv zeta. cbn [serve]. rewrite verify_run, Hu.
  cbn [app_store app_sessions]. split_and!.
  - by rewrite lookup_insert_eq.
  - unfold registered. cbn. by rewrite lookup_insert_eq.
  - intros tid Hne. cbn. by rewrite lookup_insert_ne.
  - done.
  - done.
  - intros Hf. rewrite lookup_insert_eq.
    destruct (post_score_store f {| session := Some user; body_score := score |}
                (upsert_user user (app_store a))) as [ms ->].
    rewrite logged_scores, recorded_scores. cbn. by rewrite Hf.
Qed.
End application.

Section three_servers.
Context (E : Engine) (T : NumberText).

Lemma sqlite_chat_store f msg st :
  final_store (run (Sqlite.chat_message f msg) st) =
  logged (if message_insert_fails f then [] else [msg]) st.
Proof. unfold_chat. by destruct (message_insert_fails f). Qed.

Lemma mongo_chat_store f msg st :
  final_store (run (Mongo.chat_message f msg) st) =
  logged (if message_insert_fails f then [] else [msg]) st.
Proof. unfold_chat. by destruct (message_insert_fails f). Qed.

Lemma supabase_chat_store f msg st :
  final_store (run (Supabase.chat_message f msg) st) =
  logged (if message_insert_fails f then [] else [msg]) st.
Proof. unfold_chat. by destruct (message_insert_fails f). Qed.

(** Whatever logins, logouts, score submissions and chat posts the
    application has served since it started on empty tables, and whichever
    storage calls failed, the replay is the last 50 rows of the chat log
    in the order they were inserted. *)
Theorem replay_after_any_history (acts : list Action) :
  let sqlite := app_store (serve_all (sqlite_handlers E T) start acts) in
  let mongo := app_store (serve_all (mongo_handlers E T) start acts) in
  let supabase := app_store (serve_all (supabase_handlers E T) start acts) in
  Sqlite.replay Answered sqlite = last_fifty (payload <$> messages sqlite) ∧
  Mongo.replay true Answered mongo = last_fifty (payload <$> messages mongo) ∧
  Supabase.replay Answered supabase = last_fifty (payload <$> messages supabase).
Proof.
  cbv zeta. split_and!; apply replay_increasing.
  - apply (serve_all_increasing _ false true).
    + apply sqlite_verify_run.
    + intros f req st. eexists. apply sqlite_post_store.
    + intros f msg st. eexists. apply sqlite_chat_store.
  - apply (serve_all_increasing _ false false).
    + apply mongo_verify_run.
    + intros f req st. eexists. apply mongo_post_store.
    + intros f msg st. eexists. apply mongo_chat_store.
  - apply (serve_all_increasing _ true false).
    + apply supabase_verify_run.
    + intros f req st. eexists. apply supabase_post_store.
    + intros f msg st. eexists. apply supabase_chat_store.
Qed.

(** The ledger only holds scores of identities that have logged in:
    whatever the application has served since it started on empty tables,
    every score of the ledger carries the id of a profile the provider
    returned to a login callback. *)
Theorem scores_only_from_logins (acts : list Action) :
  let from_logins (a : App) :=
    Forall (λ s, row_twitterId s ∈ logins acts) (scores (app_store a)) in
  from_logins (serve_all (sqlite_handlers E T) start acts) ∧
  from_logins (serve_all (mongo_handlers E T) start acts) ∧
  from_logins (serve_all (supabase_handlers E T) start acts).
Proof.
  cbv zeta. split_and!.
  - apply (serve_all_identities _ false true).
    + apply sqlite_verify_run.
    + intros f req st. eexists. apply sqlite_post_store.
    + intros f msg st. eexists. apply sqlite_chat_store.
  - apply (serve_all_identities _ false false).
    + apply mongo_verify_run.
    + intros f req st. eexists. apply mongo_post_store.
    + intros f msg st. eexists. apply mongo_chat_store.
  - apply (serve_all_identities _ true false).
    + apply supabase_verify_run.
    + intros f req st. eexists. apply supabase_post_store.
    + intros f msg st. eexists. apply supabase_chat_store.
Qed.

(** In server_mongo.js every score of the ledger belongs to a user of
    the directory, whatever the application has served since it started
    on empty tables; in server.js and server_supabase.js this holds when
    no upsert of a user has failed, and the leaderboard route of
    server_supabase.js then answers with status 500 only if its query
    fails: an answered query always yields a leaderboard. *)
Theorem ledger_stays_covered (acts : list Action) :
  let sqlite := app_store (serve_all (sqlite_handlers E T) start acts) in
  let mongo := app_store (serve_all (mongo_handlers E T) start acts) in
  let supabase := app_store (serve_all (supabase_handlers E T) start acts) in
  ledger_covered mongo ∧
  (upserts_succeed acts = true →
   ledger_covered sqlite ∧ ledger_covered supabase ∧
   is_Some (Supabase.leaderboard Answered supabase)).
Proof.
  cbv zeta. split.
  - apply (serve_all_covered _ false false); [| | |by left].
    + apply mongo_verify_run.
    + intros f req st. eexists. apply mongo_post_store.
    + intros f msg st. eexists. apply mongo_chat_store.
  - intros Hok.
    assert (ledger_covered
              (app_store (serve_all (supabase_handlers E T) start acts))) as Hc.
    { apply (serve_all_covered _ true false); [| | |by right].
      + apply supabase_verify_run.
      + intros f req st. eexists. apply supabase_post_store.
      + intros f msg st. eexists. apply supabase_chat_store. }
    split_and!; [|done|].
    + apply (serve_all_covered _ false true); [| | |by right].
      * apply sqlite_verify_run.
      * intros f req st. eexists. apply sqlite_post_store.
      * intros f msg st. eexists. apply sqlite_chat_store.
    + destruct (Supabase.leaderboard Answered _) eqn:Hl; [eauto|].
      by apply supabase_leaderboard_fails in Hl.
Qed.

(** Login, then submit.  After the login callback has run for a profile
    with a photo and its upsert has succeeded, the session holds the user
    built from the profile (its profile URL being the Twitter URL of the
    username), the directory holds that very record under the provider's
    id, the records of the other identities, the ledger and the chat log
    are untouched, and a score submitted from that session is recorded
    under the provider's id. *)
Theorem login_then_submit (a : App) (sid : nat)
    (id name dname photo : string) (rest : list string)
    (score : Z) (f : Faults) :
  let profile := {| profile_id := id; profile_username := name;
                    profile_displayName := dname; photos := photo :: rest |} in
  let user := {| twitterId := id;
                 session_profile :=
                   {| username := name; displayName := dname;
                      photoUrl := photo;
                      profileUrl := "https://twitter.com/" +:+ name |} |} in
  let signed_in (h : Handlers) :=
    let a1 := serve h a (Login sid profile false) in
    app_sessions a1 !! sid = Some user ∧
    registered (app_store a1) user ∧
    (∀ tid, tid ≠ id →
       users (app_store a1) !! tid = users (app_store a) !! tid) ∧
    scores (app_store a1) = scores (app_store a) ∧
    messages (app_store a1) = messages (app_store a) ∧
    (score_insert_fails f = false →
     scores (app_store (serve h a1 (PostScore sid score f))) =
     scores (app_store a) ++ [{| row_twitterId := id; row_score := score |}]) in
  signed_in (sqlite_handlers E T) ∧
  signed_in (mongo_handlers E T) ∧
  signed_in (supabase_handlers E T).
Proof.
  cbv zeta. split; [|split].
  - apply (signed_in_app _ false true); [| |done].
    + apply sqlite_verify_run.
    + intros f' req st. eexists. apply sqlite_post_store.
  - apply (signed_in_app _ false false); [| |done].
    + apply mongo_verify_run.
    + intros f' req st. eexists. apply mongo_post_store.
  - apply (signed_in_app _ true false); [| |done].
    + apply supabase_verify_run.
    + intros f' req st. eexists. apply supabase_post_store.
Qed.
End three_servers.

(* ===================================================================== *)
(** * Sessions at their edges *)
(* ===================================================================== *)

Section sessions_and_positions.
Context (E : Engine) (T : NumberText).

(** Edge cases of the session.  When the upsert of the user fails:
    server.js has queued the statement without a callback, the ['error']
    event of its failure has no listener and the process exits, so the
    sessions it held in memory are gone and the tables are as they were;
    server_mongo.js opens no session; server_supabase.js logs the error
    and opens the session, for a user the upsert has not recorded.  After
    a logout, a score submitted from the session leaves the store as it
    was. *)
Theorem login_edge_cases (a : App) (sid : nat)
    (id name dname photo : string) (rest : list string)
    (score : Z) (f : Faults) :
  let profile := {| profile_id := id; profile_username := name;
                    profile_displayName := dname; photos := photo :: rest |} in
  let user := {| twitterId := id;
                 session_profile :=
                   {| username := name; displayName := dname;
                      photoUrl := photo;
                      profileUrl := "https://twitter.com/" +:+ name |} |} in
  let sqlite := serve (sqlite_handlers E T) a (Login sid profile true) in
  let mongo := serve (mongo_handlers E T) a (Login sid profile true) in
  let supabase := serve (supabase_handlers E T) a (Login sid profile true) in
  (app_store sqlite = app_store a ∧ app_sessions sqlite = ∅) ∧
  (app_store mongo = app_store a ∧ app_sessions mongo = app_sessions a) ∧
  (app_store supabase = app_store a ∧
   app_sessions supabase = <[sid := user]> (app_sessions a)) ∧
  (app_store (serve_all (sqlite_handlers E T) a [Logout sid; PostScore sid score f]) =
     app_store a ∧
   app_store (serve_all (mongo_handlers E T) a [Logout sid; PostScore sid score f]) =
     app_store a ∧
   app_store (serve_all (supabase_handlers E T) a [Logout sid; PostScore sid score f]) =
     app_store a).
Proof.
  cbv zeta. split_and!; try done; cbn; by rewrite lookup_delete_eq.
Qed.

Lemma sqlite_ranking_logged ms st :
  Sqlite.ranking (logged ms st) = Sqlite.ranking st.
Proof.
  unfold Sqlite.ranking, Sqlite.grouped, Sqlite.joined.
  by rewrite logged_users, logged_scores.
Qed.

Lemma supabase_select_logged ms st :
  Supabase.select_scores (logged ms st) = Supabase.select_scores st.
Proof.
  unfold Supabase.select_scores. by rewrite logged_users, logged_scores.
Qed.

End sessions_and_positions.

(* ===================================================================== *)
(** * The announced rank on the leaderboard *)
(* ===================================================================== *)

Lemma sorted_perm_keys {A} (key : A → Z) (l1 l2 : list A) :
  StronglySorted (desc key) l1 → StronglySorted (desc key) l2 → l1 ≡ₚ l2 →
  key <$> l1 = key <$> l2.
Proof.
  intros H1 H2 Hp.
  apply (StronglySorted_unique_strong (desc id)).
  - intros a b _ _ Hab Hba. unfold desc in *. cbn in *. lia.
  - by apply (sorted_fmap_desc key key id).
  - by apply (sorted_fmap_desc key key id).
  - by apply fmap_Permutation.
Qed.

Lemma same_key_at {A} (key : A → Z) (l1 l2 : list A) (i : nat) (x : A) :
  StronglySorted (desc key) l1 → StronglySorted (desc key) l2 → l1 ≡ₚ l2 →
  l1 !! i = Some x → ∃ y, l2 !! i = Some y ∧ key y = key x.
Proof.
  intros H1 H2 Hp Hi.
  pose proof (sorted_perm_keys key l1 l2 H1 H2 Hp) as Hk.
  assert ((key <$> l2) !! i = Some (key x)) as Hl
    by (by rewrite <-Hk, list_lookup_fmap, Hi).
  rewrite list_lookup_fmap in Hl.
  destruct (l2 !! i) as [y|]; [|done]. injection Hl as Hl. eauto.
Qed.

Lemma first_seen_pairs (E : Engine) st nd n v :
  named (Supabase.select_scores st) = Some nd →
  (n, v) ∈ (λ x, (username x.1, x.2)) <$> first_seen (username ∘ fst) nd ∅ ↔
  maximum (scores_named n st) = Some v.
Proof.
  intros Hnd. rewrite list_elem_of_fmap. split.
  - intros ([p v'] & [= -> ->] & Hin). by apply (first_seen_maximum (E:=E) st nd).
  - intros Hmax. pose proof Hmax as [Hv _]%maximum_Some.
    apply elem_of_scores_named in Hv as (s & p & Hs & Hp & Hname & Hv).
    assert ((p, v) ∈ nd) as Hin
      by (apply (select_scores_named st nd p v Hnd); eauto).
    destruct (first_seen_covers (username ∘ fst) nd ∅ (p, v) Hin)
      as ([p' v'] & Hin' & Hkey); [set_solver|].
    cbn in Hkey.
    pose proof (first_seen_maximum (E:=E) st nd p' v' Hnd Hin') as Hmax'.
    exists (p', v'). split; [|done]. cbn. f_equal; [congruence|].
    rewrite Hkey, Hname in Hmax'. congruence.
Qed.

Lemma first_seen_pairs_perm (E1 E2 : Engine) st nd1 nd2 :
  named (Supabase.select_scores (E:=E1) st) = Some nd1 →
  named (Supabase.select_scores (E:=E2) st) = Some nd2 →
  (λ x : Profile * Z, (username x.1, x.2)) <$> first_seen (username ∘ fst) nd1 ∅ ≡ₚ
  (λ x : Profile * Z, (username x.1, x.2)) <$> first_seen (username ∘ fst) nd2 ∅.
Proof.
  intros H1 H2.
  assert (∀ nd : list (Profile * Z),
    NoDup ((λ x : Profile * Z, (username x.1, x.2)) <$>
             first_seen (username ∘ fst) nd ∅)) as Hnd.
  { intros nd. apply (NoDup_fmap_1 fst). rewrite <-list_fmap_compose.
    apply (first_seen_NoDup (username ∘ fst)). }
  apply NoDup_Permutation; [apply Hnd..|].
  intros [n v].
  by rewrite (first_seen_pairs E1 st nd1 n v H1), (first_seen_pairs E2 st nd2 n v H2).
Qed.

Lemma untied_logged ms st score :
  untied (logged ms st) score ↔ untied st score.
Proof. unfold untied. by rewrite logged_users, logged_scores. Qed.

Lemma untied_names_logged ms st score :
  untied_names (logged ms st) score ↔ untied_names st score.
Proof.
  unfold untied_names, scores_named. by rewrite logged_users, logged_scores.
Qed.

Section position.
Context (E1 E2 : Engine) (T : NumberText).

(** The announced rank is the position on the leaderboard.  When the
    score route of server.js or server_supabase.js announces rank [k + 1],
    the row at index [k] of the leaderboard route's answer on the store it
    leaves carries the submitted score, however the engine breaks ties in
    either query; it carries the submitter's username when no other
    identity of the directory (in server_supabase.js: no other username)
    has that score as its best score. *)
Theorem announced_rank_is_leaderboard_position (f : Faults) (req : Request)
    (st : Store) :
  let sqlite := run (Sqlite.post_score (E:=E1) f req) st in
  let supabase := run (Supabase.post_score (E:=E1) f req) st in
  (emitted (trace sqlite) = [] ∨
   ∃ u k row,
     session req = Some u ∧
     emitted (trace sqlite) =
       [system_message (username (session_profile u)) (S k) (body_score req)] ∧
     Sqlite.leaderboard (E:=E2) (final_store sqlite) !! k = Some row ∧
     lb_highScore row = body_score req ∧
     (untied (final_store sqlite) (body_score req) →
      lb_username row = username (session_profile u))) ∧
  (emitted (trace supabase) = [] ∨
   ∃ u k rows row,
     session req = Some u ∧
     emitted (trace supabase) =
       [system_message (username (session_profile u)) (S k) (body_score req)] ∧
     Supabase.leaderboard (E:=E2) Answered (final_store supabase) = Some rows ∧
     rows !! k = Some row ∧
     lb_highScore row = body_score req ∧
     (untied_names (final_store supabase) (body_score req) →
      lb_username row = username (session_profile u))).
Proof.
  cbv zeta. destruct req as [[u|] score]; cbn [session body_score];
    [|split; left; reflexivity].
  split.
  - rewrite sqlite_post_store.
    unfold Sqlite.leaderboard. rewrite sqlite_ranking_logged.
    rewrite sqlite_emitted.
    destruct (score_insert_fails f) eqn:Hs; [by left|].
    destruct (top3_query_fails f); [by left|]. cbn [orb]. cbv zeta.
    destruct (placed _ _ _ _ _) eqn:Hp; [|by left]. right.
    apply placed_true in Hp as (i & r & Hfind & Hi & Hr).
    unfold rank. rewrite Hfind.
    apply list_find_take_Some in Hfind as [Hfind _].
    apply list_find_Some in Hfind as (Hl & Hname & _).
    unfold recorded. cbn [session body_score]. rewrite Hs.
    set (st' := insert_score (twitterId u) score st) in *.
    destruct (same_key_at highScore (Sqlite.ranking (E:=E1) st')
                (Sqlite.ranking (E:=E2) st') i r) as (r2 & Hl2 & Hk);
      [apply sqlite_ranking_sorted..| |done|].
    { by rewrite !sqlite_ranking_perm. }
    exists u, i, (project r2). split; [done|]. split; [done|].
    split; [|split].
    + rewrite list_lookup_fmap, lookup_take_lt by lia. by rewrite Hl2.
    + cbn. congruence.
    + intros Hun%untied_logged. cbn.
      apply list_elem_of_lookup_2, sqlite_ranking_elem in Hl as [Hu1 Hb1].
      apply list_elem_of_lookup_2, sqlite_ranking_elem in Hl2 as [Hu2 Hb2].
      rewrite Hr in Hb1. rewrite Hk, Hr in Hb2.
      assert (rk_twitterId r2 = rk_twitterId r) as Heq
        by (apply Hun; eauto).
      rewrite Heq, Hu1 in Hu2. injection Hu2 as <-. exact Hname.
  - rewrite supabase_post_store.
    unfold Supabase.leaderboard, Supabase.userMap.
    rewrite supabase_select_logged.
    rewrite supabase_emitted.
    destruct (score_insert_fails f) eqn:Hs; [by left|].
    destruct (top3_query_fails f); [by left|]. cbn [orb].
    unfold recorded. cbn [session body_score]. rewrite Hs.
    set (st' := insert_score (twitterId u) score st) in *.
    unfold Supabase.top3, Supabase.uniqueScores.
    rewrite deduplicate_first_seen, forEach_entry_first_seen.
    destruct (named (Supabase.select_scores (E:=E1) st')) as [nd1|] eqn:Hnd1;
      [|by left].
    assert (is_Some (named (Supabase.select_scores (E:=E2) st'))) as [nd2 Hnd2].
    { apply select_scores_covered. apply (named_covered (E:=E1)). eauto. }
    rewrite Hnd2. cbn.
    set (fs1 := first_seen (username ∘ fst) nd1 ∅).
    destruct (placed _ _ _ _ _) eqn:Hp; [|by left]. right.
    apply placed_true in Hp as (i & [n v] & Hfind & Hi & Hr).
    unfold rank. rewrite Hfind.
    apply list_find_take_Some in Hfind as [Hfind _].
    apply list_find_Some in Hfind as (Hl & Hname & _).
    cbn in Hname, Hr. subst n v.
    set (name := username (session_profile u)) in *.
    set (pair := λ x : Profile * Z, (username x.1, x.2)).
    assert ((pair <$> fs1) !! i = Some (name, score)) as Hl1.
    { rewrite <-Hl. f_equal. apply list_fmap_ext. by intros ? [] _. }
    set (fs2 := first_seen (username ∘ fst) nd2 ∅).
    destruct (same_key_at snd (pair <$> fs1) (pair <$> fs2) i (name, score))
      as ([n2 v2] & Hl2 & Hk); [..|done|].
    { apply (sorted_fmap_desc _ snd snd); [by intros []|].
      apply first_seen_sorted.
      apply (select_scores_named_sorted (E:=E1) st' nd1 Hnd1). }
    { apply (sorted_fmap_desc _ snd snd); [by intros []|].
      apply first_seen_sorted.
      apply (select_scores_named_sorted (E:=E2) st' nd2 Hnd2). }
    { by apply (first_seen_pairs_perm E1 E2 st'). }
    cbn in Hk. subst v2.
    rewrite list_lookup_fmap in Hl2.
    destruct (fs2 !! i) as [[p2 v2]|] eqn:Hfs2; [|done].
    cbn in Hl2. injection Hl2 as Hn2 Hv2.
    exists u, i. eexists _, (Supabase.row_of p2 v2). split; [done|].
    split; [done|]. split; [done|]. split; [|split].
    + rewrite lookup_take_lt by lia. rewrite !list_lookup_fmap.
      fold fs2. by rewrite Hfs2.
    + done.
    + intros Hun%untied_names_logged. cbn. rewrite Hn2. apply Hun.
      * apply (first_seen_pairs E2 st' nd2 n2 score Hnd2).
        apply list_elem_of_fmap. exists (p2, v2). split; [by rewrite <-Hn2, Hv2|].
        by apply list_elem_of_lookup_2 in Hfs2.
      * apply (first_seen_pairs E1 st' nd1 name score Hnd1).
        by apply list_elem_of_lookup_2 in Hl1.
Qed.
End position.

(* ===================================================================== *)
(** * Placement detection in server_supabase.js *)
(* ===================================================================== *)

(** The Supabase server announces by the same rule, read on its own
    rows.  For a submission without storage failure by an identity whose
    session carries the username the directory records for it, a username
    no other identity of the directory carries, server_supabase.js
    broadcasts an announcement exactly when the submitter's username
    stands at position 1, 2 or 3 of the recomputed [uniqueScores] and the
    submitted score is the submitter's best score after the insert; the
    announcement names that position, and it is what the handler adds to
    the chat log. *)
Theorem supabase_announcement_iff_placed (E : Engine) (T : NumberText) (st : Store)
    (u : SessionUser) (score : Z) :
  session_current st u → username_unshared st u →
  let st' := insert_score (twitterId u) score st in
  let name := username (session_profile u) in
  let r := run (Supabase.post_score no_faults (submit u score)) st in
  ∀ rows, Supabase.top3 st' = Some rows →
    let pos := rank fst rows name in
    emitted (trace r) =
      (if decide ((1 ≤ pos ≤ 3)%nat ∧
                  bestScore (twitterId u) (scores st') = Some score)
       then [system_message name pos score] else []) ∧
    final_store r = logged (emitted (trace r)) st'.
Proof.
  intros Hreg Hun st' name r rows Hrows pos.
  assert (session_current st' u) as Hreg' by done.
  assert (username_unshared st' u) as Hun' by done.
  split; [|apply (supabase_post_store no_faults (submit u score) st)].
  unfold r, submit. rewrite supabase_emitted.
  cbn [orb no_faults score_insert_fails top3_query_fails]. fold st'.
  rewrite Hrows. cbv zeta. fold name. fold pos.
  destruct (placed fst snd rows name score) eqn:Hp.
  - apply placed_true in Hp as (i & [n v] & Hf & Hi & Hv). cbn in Hv.
    pose proof (supabase_row_is_best st' rows u i n v Hrows Hreg' Hun' Hf) as Hb.
    assert (pos = S i) as Hpos by (unfold pos, rank; by rewrite Hf).
    rewrite decide_True; [done|]. split; [lia|congruence].
  - rewrite decide_False; [done|]. intros [Hpos Hb].
    unfold pos, rank in Hpos.
    destruct (list_find (λ r, r.1 = name) rows) as [[i [n v]]|] eqn:Hf; [|lia].
    pose proof (supabase_row_is_best st' rows u i n v Hrows Hreg' Hun' Hf) as Hb'.
    assert (placed fst snd rows name score = true) as Hp'; [|congruence].
    apply placed_true. exists i, (n, v). split_and!; [done|lia|].
    cbn. congruence.
Qed.

Lemma supabase_announcement_iff_placed_witness :
  session_current sample_store bob ∧ username_unshared sample_store bob ∧
  Supabase.top3 (E:=merge_engine) (insert_score (twitterId bob) 60 sample_store) =
    Some [("bob", 60); ("alice", 50)] ∧
  emitted (trace (run (Supabase.post_score (E:=merge_engine) (T:=decimal_text)
                         no_faults
                         (submit bob 60)) sample_store)) =
    [system_message (T:=decimal_text) "bob" 1 60].
Proof.
  assert (session_current sample_store bob) as Hreg by reflexivity.
  assert (username_unshared sample_store bob) as Hun
    by (apply (bool_decide_unpack _); vm_compute; exact I).
  assert (Supabase.top3 (E:=merge_engine)
            (insert_score (twitterId bob) 60 sample_store) =
          Some [("bob", 60); ("alice", 50)]) as Hrows by reflexivity.
  split; [exact Hreg|]. split; [exact Hun|]. split; [exact Hrows|].
  destruct (supabase_announcement_iff_placed merge_engine decimal_text sample_store bob 60
              Hreg Hun _ Hrows) as [-> _].
  reflexivity.
Defined.
